(** * Slashblade animation exporter: a shallow embedding and its properties

    The development follows [yamato animation converter.py]: the keyframe
    extractor [gather_action_keyframes], the orientation rule
    [pose_bone_relative_euler_degrees], the formatter [vec_to_angle_str]
    and the export core [export_action_to_slashblade_text].

    Python floats are IEEE binary64 values ([spec_float], with the
    operations of the standard library's [SpecFloat] at precision 53);
    the components of a [mathutils] Euler are held in binary32; Python
    ints are [Z]; the set of frames is a [gset Z]; the scene and the file
    system are an explicit state threaded through a small
    state-and-exception monad. *)

From Stdlib Require Import ZArith List String Ascii Lia Bool Decimal DecimalString DecimalZ DecimalPos DecimalN.
From Stdlib Require Import SpecFloat.
From stdpp Require Import base option list gmap strings sorting.

Set Warnings "-clear-no-such-hyp".

Local Open Scope Z_scope.
Local Open Scope string_scope.
Local Open Scope list_scope.

(** ** Python floats *)

Module PyFloat.

(** A Python float: sign, mantissa and binary exponent of a finite
    value, signed zeros, infinities and NaN. *)
Definition float := spec_float.

Definition prec : Z := 53.
Definition emax : Z := 1024.

Definition fsub (a b : float) : float := SFsub prec emax a b.
Definition fmul (a b : float) : float := SFmul prec emax a b.
Definition fdiv (a b : float) : float := SFdiv prec emax a b.

Definition of_Z (z : Z) : float := binary_normalize prec emax z 0 false.

(** The value a C [float] holds once a double has been assigned to it:
    the nearest binary32 value, ties to even, with overflow to an
    infinity and gradual underflow. [mathutils] keeps the components of
    an [Euler] in this precision. *)
Definition prec_single : Z := 24.
Definition emax_single : Z := 128.

Definition to_single (x : float) : float :=
  match x with
  | S754_finite s m e => binary_round prec_single emax_single s m e
  | _ => x
  end.

Definition is_finite (a : float) : bool :=
  match a with
  | S754_zero _ | S754_finite _ _ _ => true
  | S754_infinity _ | S754_nan => false
  end.

(** [round_half_even_pos m e] is the integer nearest to [m * 2^e], ties
    going to the even neighbour. *)
Definition round_half_even_pos (m : positive) (e : Z) : Z :=
  match e with
  | Zneg p =>
      let d := 2 ^ Zpos p in
      let q := Zpos m / d in
      let r := Zpos m mod d in
      match Z.compare (2 * r) d with
      | Lt => q
      | Gt => q + 1
      | Eq => if Z.even q then q else q + 1
      end
  | _ => Zpos m * 2 ^ e
  end.

End PyFloat.
Export PyFloat.

(** ** Exceptions *)

Inductive exn : Type :=
  | RuntimeError (msg : string)
  | ValueError
  | OverflowError
  | IndexError
  | OSError.

Definition result (A : Type) : Type := exn + A.

Definition res_bind {A B} (r : result A) (k : A -> result B) : result B :=
  match r with
  | inl e => inl e
  | inr a => k a
  end.

Fixpoint res_mapM {A B} (f : A -> result B) (l : list A) : result (list B) :=
  match l with
  | [] => inr []
  | a :: l' =>
      res_bind (f a) (fun b => res_bind (res_mapM f l') (fun bs => inr (b :: bs)))
  end.

(** ** Builtins *)

(** [round(x)] on a float, then [int(...)]: nearest integer with ties to
    even; NaN raises [ValueError] and an infinity raises [OverflowError]. *)
Definition py_round (x : float) : result Z :=
  match x with
  | S754_zero _ => inr 0
  | S754_finite s m e =>
      let n := round_half_even_pos m e in
      inr (if s then - n else n)
  | S754_infinity _ => inl OverflowError
  | S754_nan => inl ValueError
  end.

(** ** The animation clip *)

Record Keyframe := mkKeyframe { co_x : float; co_y : float }.
Record FCurve := mkFCurve { keyframe_points : list Keyframe }.
Record Action := mkAction { name : string; fcurves : list FCurve }.

(** Every keyframe point of every channel, in iteration order. *)
Definition action_points (action : Action) : list Keyframe :=
  concat (map keyframe_points (fcurves action)).

(** ** Keyframe extractor *)

(** The inner loop of [gather_action_keyframes]: [frames.add(int(round(kp.co.x)))]
    for every point of one curve. *)
Fixpoint gather_points (kps : list Keyframe) (frames : gset Z) : result (gset Z) :=
  match kps with
  | [] => inr frames
  | kp :: kps' =>
      res_bind (py_round (co_x kp)) (fun n => gather_points kps' ({[ n ]} ∪ frames))
  end.

(** The outer loop over [action.fcurves]. *)
Fixpoint gather_curves (fcus : list FCurve) (frames : gset Z) : result (gset Z) :=
  match fcus with
  | [] => inr frames
  | fcu :: fcus' =>
      res_bind (gather_points (keyframe_points fcu) frames) (gather_curves fcus')
  end.

(** [sorted(frames)] on a set of ints. *)
Definition sorted (frames : gset Z) : list Z := merge_sort Z.le (elements frames).

Definition gather_action_keyframes (action : Action) : result (list Z) :=
  res_bind (gather_curves (fcurves action) ∅) (fun frames => inr (sorted frames)).

(** ** Strings *)

(** The newline character of the Python string literals. *)
Definition LF : string := String (ascii_of_nat 10) EmptyString.

Fixpoint str_map (f : ascii -> ascii) (s : string) : string :=
  match s with
  | EmptyString => EmptyString
  | String c s' => String (f c) (str_map f s')
  end.

Fixpoint str_forall (P : ascii -> bool) (s : string) : bool :=
  match s with
  | EmptyString => true
  | String a s' => P a && str_forall P s'
  end.

(** [s.isascii()]: every character is below 128. *)
Definition ascii_text (s : string) : bool :=
  str_forall (fun c => (nat_of_ascii c <? 128)%nat) s.

(** Case mapping, for ASCII text ([ascii_text]): there [str.lower] and
    [str.upper] act letter by letter on the 26 letters and leave every
    other character alone. Outside ASCII the Unicode case mapping of
    Python applies, which these definitions do not describe. *)
Definition ascii_lower (c : ascii) : ascii :=
  let n := nat_of_ascii c in
  if ((65 <=? n) && (n <=? 90))%nat then ascii_of_nat (n + 32) else c.

Definition ascii_upper (c : ascii) : ascii :=
  let n := nat_of_ascii c in
  if ((97 <=? n) && (n <=? 122))%nat then ascii_of_nat (n - 32) else c.

Definition str_lower : string -> string := str_map ascii_lower.
Definition str_upper : string -> string := str_map ascii_upper.

(** [s.replace(old, new)] for one-character [old] and [new]. *)
Definition str_replace (old new : ascii) : string -> string :=
  str_map (fun c => if Ascii.eqb c old then new else c).

(** [str(n)] on an int. *)
Definition py_str (n : Z) : string := NilZero.string_of_int (Z.to_int n).

(** ** Formatting *)

Definition digit_char (d : Z) : ascii := ascii_of_nat (48 + Z.to_nat d).

(** The six decimal digits of [n mod 10^6], most significant first. *)
Definition frac6 (n : Z) : string :=
  String (digit_char (n / 100000 mod 10))
 (String (digit_char (n / 10000 mod 10))
 (String (digit_char (n / 1000 mod 10))
 (String (digit_char (n / 100 mod 10))
 (String (digit_char (n / 10 mod 10))
 (String (digit_char (n mod 10)) EmptyString))))).

Definition sign_str (s : bool) : string := if s then "-" else "".

(** ["{:.6f}".format(x)]: the decimal nearest to the exact binary value
    with six fractional digits, ties to even; the sign bit is printed
    also when the digits are all zero. *)
Definition format_6f (x : float) : string :=
  match x with
  | S754_nan => "nan"
  | S754_infinity s => sign_str s +:+ "inf"
  | S754_zero s => sign_str s +:+ "0.000000"
  | S754_finite s m e =>
      let n := round_half_even_pos (m * 1000000) e in
      sign_str s +:+ py_str (n / 1000000) +:+ "." +:+ frac6 n
  end.

Definition vec_to_angle_str (deg_tuple : float * float * float) : string :=
  let '(d0, d1, d2) := deg_tuple in
  "Angle(" +:+ format_6f d0 +:+ "," +:+ format_6f d1 +:+ "," +:+ format_6f d2 +:+ ")".

(** ** The [math] module

    [math.radians(x)] is [x * (pi / 180.0)] and [math.degrees(x)] is
    [x * (180.0 / pi)], each one multiplication in binary64. *)

(** The double nearest to pi, [0x400921FB54442D18]. *)
Definition math_pi : float := S754_finite false 7074237752028440 (-51).

Definition degToRad : float := Eval vm_compute in fdiv math_pi (of_Z 180).
Definition radToDeg : float := Eval vm_compute in fdiv (of_Z 180) math_pi.

Definition radians (x : float) : float := fmul x degToRad.
Definition degrees (x : float) : float := fmul x radToDeg.

Definition ninety : float := Eval vm_compute in of_Z 90.

(** ** Configuration *)

Definition BONE_ORDER : list string :=
  [ "Torso";
    "UpperArm_Left";
    "ForeArm_Left";
    "Hand_Left";
    "Hand_Flipped_Left";
    "UpperArm_Right";
    "ForeArm_Right";
    "Hand_Right";
    "Sword" ].

(** ** The host: [mathutils], [bpy] and [os.path] *)

Record Euler := mkEuler { euler_x : float; euler_y : float; euler_z : float }.

(** What the exporter takes from the host libraries: 4x4 transforms with
    their product [@], [Matrix.inverted] (which raises [ValueError] on a
    singular matrix, here [None]), [Matrix.to_euler('XYZ')], and
    [os.path.dirname]. *)
Class Host := {
  Matrix : Type;
  inverted : Matrix -> option Matrix;
  matmul : Matrix -> Matrix -> Matrix;
  to_euler_XYZ : Matrix -> Euler;
  path_dirname : string -> string
}.

#[warnings="-register-all"]
Inductive PoseBone `{Host} : Type :=
  mkPoseBone { parent : option PoseBone; matrix : Matrix }.

Record Armature `{Host} := mkArmature {
  matrix_world : Matrix;
  pose_bones : list (string * PoseBone)
}.

Arguments mkPoseBone {_} _ _.
Arguments mkArmature {_} _ _.

(** [arm_obj.pose.bones[key]]: the first bone of that name; [None] is the
    [KeyError] of the collection. *)
Fixpoint bones_lookup `{Host} (bones : list (string * PoseBone)) (key : string)
  : option PoseBone :=
  match bones with
  | [] => None
  | (k, pb) :: bones' => if String.eqb k key then Some pb else bones_lookup bones' key
  end.

(** ** Orientation rule *)

(** [e.x -= math.radians(90.0)] reads the component as a double,
    subtracts in binary64 and assigns the difference back to the Euler,
    which holds it in single precision; [math.degrees(e.x)] then reads
    the stored value. *)
Definition pose_bone_relative_euler_degrees `{Host} (arm_obj : Armature) (pb : PoseBone)
  : result (float * float * float) :=
  match parent pb with
  | Some p =>
      match inverted (matrix p) with
      | None => inl ValueError
      | Some pinv =>
          let rel_mat := matmul pinv (matrix pb) in
          let e := to_euler_XYZ rel_mat in
          inr (degrees (euler_x e), degrees (euler_y e), degrees (euler_z e))
      end
  | None =>
      let world_mat := matmul (matrix_world arm_obj) (matrix pb) in
      let e := to_euler_XYZ world_mat in
      let e := mkEuler (to_single (fsub (euler_x e) (radians ninety)))
                       (euler_y e) (euler_z e) in
      inr (degrees (euler_x e), degrees (euler_y e), degrees (euler_z e))
  end.

(** ** Scene and file system *)

(** How the operating system answers the directory creation and the
    write of one export: no failure; [os.makedirs] raises after it has
    made the topmost [made] of the directories above the path; [open]
    raises; or the device accepts only the first [room] bytes of what
    [writelines] sends. *)
Inductive IoFault : Type :=
  | NoFault
  | MkdirFails (made : nat)
  | OpenFails
  | DiskFull (room : nat).

Record World := mkWorld {
  frame_current : Z;
  dirs : gset string;
  files : gmap string string;
  io_fault : IoFault
}.

(** Computations over the world that may raise; the world reached when
    an exception is raised is kept. *)
Definition M (A : Type) : Type := World -> World * result A.

Definition ret {A} (a : A) : M A := fun w => (w, inr a).
Definition raise {A} (e : exn) : M A := fun w => (w, inl e).
Definition bind {A B} (m : M A) (k : A -> M B) : M B :=
  fun w =>
    match m w with
    | (w', inl e) => (w', inl e)
    | (w', inr a) => k a w'
    end.
Definition lift {A} (r : result A) : M A := fun w => (w, r).

Notation "'let*' x ':=' m 'in' k" := (bind m (fun x => k))
  (at level 10, x name, m at level 100, k at level 200, only parsing).

(** [scene.frame_current] *)
Definition get_frame : M Z := fun w => (w, inr (frame_current w)).

Definition with_frame (w : World) (f : Z) : World :=
  mkWorld f (dirs w) (files w) (io_fault w).

(** [scene.frame_set(f)] followed by [bpy.context.view_layer.update()],
    as the host answers a frame of the scene's frame range: the cursor
    moves to [f]. Beyond that range Blender moves the cursor to the end
    of the range instead and, for a number that is no C int, raises
    [ValueError]; keyframes that far out are outside this model
    ([scene_frame]). *)
Definition frame_set (f : Z) : M unit :=
  fun w => (with_frame w f, inr tt).

(** The armature object as the scene evaluates it at a frame; reading
    [arm_obj] sees the evaluation at the current frame. *)
Definition read_armature `{Host} (arm_obj : Z -> Armature) : M Armature :=
  fun w => (w, inr (arm_obj (frame_current w))).

(** [os.path.exists(path)]; the empty path never exists. *)
Definition path_exists (w : World) (path : string) : bool :=
  negb (String.eqb path "")
  && (bool_decide (path ∈ dirs w) || bool_decide (is_Some (files w !! path))).

Definition add_dirs (w : World) (paths : list string) : World :=
  mkWorld (frame_current w) (list_to_set paths ∪ dirs w) (files w) (io_fault w).

(** The path and the directories above it, nearest first, as repeated
    [os.path.dirname] reaches them; the climb ends at the empty path and
    at a path that is its own directory (the root). *)
Fixpoint ancestors `{Host} (fuel : nat) (path : string) : list string :=
  match fuel with
  | O => []
  | S fuel' =>
      if String.eqb path "" then []
      else path :: (if String.eqb (path_dirname path) path then []
                    else ancestors fuel' (path_dirname path))
  end.

Definition dir_chain `{Host} (path : string) : list string :=
  ancestors (String.length path) path.

(** [os.makedirs(path, exist_ok=True)]: makes the missing directories
    from the top down and the path itself last. The empty path raises
    ([FileNotFoundError]); a failure on the way leaves the directories
    made before it. *)
Definition makedirs `{Host} (path : string) : M unit :=
  fun w =>
    if String.eqb path "" then (w, inl OSError)
    else
      match io_fault w with
      | MkdirFails made =>
          (add_dirs w (take made (reverse (tail (dir_chain path)))), inl OSError)
      | _ => (add_dirs w (dir_chain path), inr tt)
      end.

Definition ensure_dir `{Host} (path : string) : M unit :=
  fun w => if path_exists w path then (w, inr tt) else makedirs path w.

Definition set_file (w : World) (path content : string) : World :=
  mkWorld (frame_current w) (dirs w) (<[ path := content ]> (files w)) (io_fault w).

(** [with open(path, "w") as fh: fh.writelines(lines)]: opening truncates
    the file; the lines go out as one stream of characters, and a failing
    write leaves the characters written before it, wherever in a line
    that is. *)
Definition write_lines (path : string) (lines : list string) : M unit :=
  fun w =>
    let text := String.concat "" lines in
    match io_fault w with
    | OpenFails => (w, inl OSError)
    | DiskFull room =>
        if (room <? String.length text)%nat
        then (set_file w path (String.substring 0 room text), inl OSError)
        else (set_file w path text, inr tt)
    | _ => (set_file w path text, inr tt)
    end.

(** ** Export core *)

(** One pass of the [for bone_name in BONE_ORDER] loop body. *)
Definition angle_line `{Host} (arm_obj : Armature) (bone_name : string) : result string :=
  match bones_lookup (pose_bones arm_obj) bone_name with
  | Some pb =>
      res_bind (pose_bone_relative_euler_degrees arm_obj pb)
               (fun degs => inr (vec_to_angle_str degs))
  | None => inr "Angle(0,0,0)"
  end.

(** [i < len(keyframes) - 1] *)
Definition has_next (keyframes : list Z) (i : nat) : bool :=
  (Z.of_nat i <? Z.of_nat (length keyframes) - 1)%Z.

Definition frame_length (keyframes : list Z) (i : nat) (f : Z) : result Z :=
  if has_next keyframes i then
    match keyframes !! S i with
    | Some g => inr (g - f)
    | None => inl IndexError
    end
  else inr 1.

(** The lines one keyframe appends to [lines]. *)
Definition block_lines (keyframes : list Z) (i : nat)
    (angle_lines : list string) (frame_length : Z) : list string :=
  ("{" +:+ LF)
    :: map (fun ang => ang +:+ "," +:+ LF) angle_lines
    ++ [ py_str frame_length +:+ "," +:+ LF;
         "true" +:+ LF;
         if has_next keyframes i then "}," +:+ LF else "}" +:+ LF ].

(** [for i, f in enumerate(keyframes)], with [rest] the frames still to
    visit and [i] the index of the first of them. *)
Fixpoint export_loop `{Host} (arm_obj : Z -> Armature) (keyframes : list Z)
    (i : nat) (rest : list Z) (lines : list string) : M (list string) :=
  match rest with
  | [] => ret lines
  | f :: rest' =>
      let* _ := frame_set f in
      let* frame_length := lift (frame_length keyframes i f) in
      let* arm := read_armature arm_obj in
      let* angle_lines := lift (res_mapM (angle_line arm) BONE_ORDER) in
      export_loop arm_obj keyframes (S i) rest'
        (lines ++ block_lines keyframes i angle_lines frame_length)
  end.

Definition header_of (anim_name : string) : string :=
  let anim_name_lower := str_replace " " "_" (str_lower anim_name) in
  let anim_name_upper := str_replace " " "_" (str_upper anim_name) in
  "--@name slashblade_project/anim/" +:+ anim_name_lower +:+ LF
    +:+ anim_name_upper +:+ "={" +:+ LF.

Definition export_action_to_slashblade_text `{Host}
    (arm_obj : Z -> Armature) (action : Action) (out_path : string) : M string :=
  let* keyframes := lift (gather_action_keyframes action) in
  match keyframes with
  | [] => raise (RuntimeError "No keyframes found in action!")
  | _ :: _ =>
      let header := header_of (name action) in
      let lines := [header] in
      let* orig_frame := get_frame in
      let* lines := export_loop arm_obj keyframes 0 keyframes lines in
      let lines := lines ++ ["}" +:+ LF] in
      let* _ := ensure_dir (path_dirname out_path) in
      let* _ := write_lines out_path lines in
      let* _ := frame_set orig_frame in
      ret out_path
  end.

(** ** Reference definitions used by the statements *)

(** The frame of a keyframe point with a finite coordinate. *)
Definition frame_of (x : float) : Z :=
  match py_round x with
  | inr n => n
  | inl _ => 0
  end.

Definition finite_clip (action : Action) : Prop :=
  Forall (fun kp => is_finite (co_x kp) = true) (action_points action).

(** The hold duration as the document format describes it: the distance
    to the next frame, and 1 for the final frame. *)
Definition hold_duration (frames : list Z) (i : nat) : Z :=
  match frames !! i, frames !! S i with
  | Some f, Some g => g - f
  | _, _ => 1
  end.

(** The block of the [i]-th keyframe, written out line by line. *)
Definition block_at (frames : list Z) (i : nat) (angles : list string) : list string :=
  ("{" +:+ LF)
    :: map (fun a => a +:+ "," +:+ LF) angles
    ++ [ py_str (hold_duration frames i) +:+ "," +:+ LF;
         "true" +:+ LF;
         (if bool_decide (S i = length frames) then "}" else "},") +:+ LF ].

Fixpoint blocks_from (frames : list Z) (i : nat) (angles : list (list string))
  : list string :=
  match angles with
  | [] => []
  | a :: angles' => block_at frames i a ++ blocks_from frames (S i) angles'
  end.

(** The lines of a whole document: header, one block per frame, closing
    brace. *)
Definition document_lines (clip_name : string) (frames : list Z)
    (angles : list (list string)) : list string :=
  header_of clip_name :: blocks_from frames 0 angles ++ ["}" +:+ LF].

(** The world once the output directory exists. *)
Definition ensured `{Host} (w : World) (path : string) : World :=
  if path_exists w path then w else add_dirs w (dir_chain path).

(** The end of the export once [lines] is assembled: directory, write,
    seek back to the original frame. *)
Definition finish_export `{Host} (out_path : string) (lines : list string)
    (orig_frame : Z) : M string :=
  let* _ := ensure_dir (path_dirname out_path) in
  let* _ := write_lines out_path lines in
  let* _ := frame_set orig_frame in
  ret out_path.

(** The world a successful export of [content] leaves behind. *)
Definition exported `{Host} (w : World) (out_path content : string) : World :=
  set_file (ensured w (path_dirname out_path)) out_path content.

(** The nine angle entries of the rig evaluated at frame [f]. *)
Definition angles_at `{Host} (arm_obj : Z -> Armature) (f : Z) : result (list string) :=
  res_mapM (angle_line (arm_obj f)) BONE_ORDER.

Definition is_digit (c : ascii) : bool :=
  ((48 <=? nat_of_ascii c) && (nat_of_ascii c <=? 57))%nat.

Fixpoint all_digits (s : string) : bool :=
  match s with
  | EmptyString => true
  | String c s' => is_digit c && all_digits s'
  end.

(** Digits, a point, then exactly six digits; [seen] tells whether a
    digit came before the point. *)
Fixpoint fixed6_unsigned (s : string) (seen : bool) : bool :=
  match s with
  | EmptyString => false
  | String c s' =>
      if Ascii.eqb c "."
      then seen && (String.length s' =? 6)%nat && all_digits s'
      else is_digit c && fixed6_unsigned s' true
  end.

(** A signed fixed-point decimal with exactly six digits after the point. *)
Definition fixed6 (s : string) : bool :=
  match s with
  | String "-" s' => fixed6_unsigned s' false
  | _ => fixed6_unsigned s false
  end.

Fixpoint starts_with (p s : string) : bool :=
  match p, s with
  | EmptyString, _ => true
  | String _ _, EmptyString => false
  | String a p', String b s' => Ascii.eqb a b && starts_with p' s'
  end.

(** An entry is a constructor call [Angle(...)]. *)
Definition is_angle_entry (s : string) : bool := starts_with "Angle(" s.

Definition finite_triple (t : float * float * float) : bool :=
  let '(a, b, c) := t in is_finite a && is_finite b && is_finite c.

(** The duration line of block [i] sits at this index of the lines: the
    header, thirteen lines per earlier block, the opening brace and the
    nine angle entries come before it. *)
Definition duration_index (i : nat) : nat := (11 + 13 * i)%nat.

(** The index of the entry of the [n]-th bone in block [i]. *)
Definition angle_index (i n : nat) : nat := (2 + 13 * i + n)%nat.

(** The document of the scenario, line by line, for the Torso entries
    [t0] and [t10] of its two keyframes. *)
Definition slash_combo_lines (t0 t10 : string) : list string :=
  [ "--@name slashblade_project/anim/slash_combo_1" +:+ LF
      +:+ "SLASH_COMBO_1={" +:+ LF;
    "{" +:+ LF;
    t0 +:+ "," +:+ LF;
    "Angle(0,0,0)," +:+ LF; "Angle(0,0,0)," +:+ LF; "Angle(0,0,0)," +:+ LF;
    "Angle(0,0,0)," +:+ LF; "Angle(0,0,0)," +:+ LF; "Angle(0,0,0)," +:+ LF;
    "Angle(0,0,0)," +:+ LF; "Angle(0,0,0)," +:+ LF;
    "10," +:+ LF;
    "true" +:+ LF;
    "}," +:+ LF;
    "{" +:+ LF;
    t10 +:+ "," +:+ LF;
    "Angle(0,0,0)," +:+ LF; "Angle(0,0,0)," +:+ LF; "Angle(0,0,0)," +:+ LF;
    "Angle(0,0,0)," +:+ LF; "Angle(0,0,0)," +:+ LF; "Angle(0,0,0)," +:+ LF;
    "Angle(0,0,0)," +:+ LF; "Angle(0,0,0)," +:+ LF;
    "1," +:+ LF;
    "true" +:+ LF;
    "}" +:+ LF;
    "}" +:+ LF ].

(** Every outcome of the export, by the phase that decides it. *)
Inductive outcome `{Host} (arm_obj : Z -> Armature) (action : Action)
    (out_path : string) (w : World) : World -> result string -> Prop :=
  | out_gather_err e :
      gather_action_keyframes action = inl e ->
      outcome arm_obj action out_path w w (inl e)
  | out_no_keyframes :
      gather_action_keyframes action = inr [] ->
      outcome arm_obj action out_path w w
        (inl (RuntimeError "No keyframes found in action!"))
  | out_pose_err ks e f :
      gather_action_keyframes action = inr ks ->
      res_mapM (angles_at arm_obj) ks = inl e -> f ∈ ks ->
      outcome arm_obj action out_path w (with_frame w f) (inl e)
  | out_dir_err ks angs f w1 :
      gather_action_keyframes action = inr ks ->
      res_mapM (angles_at arm_obj) ks = inr angs -> last ks = Some f ->
      ensure_dir (path_dirname out_path) w = (w1, inl OSError) ->
      outcome arm_obj action out_path w (with_frame w1 f) (inl OSError)
  | out_open_err ks angs f :
      gather_action_keyframes action = inr ks ->
      res_mapM (angles_at arm_obj) ks = inr angs -> last ks = Some f ->
      io_fault w = OpenFails ->
      outcome arm_obj action out_path w
        (with_frame (ensured w (path_dirname out_path)) f) (inl OSError)
  | out_write_err ks angs f room :
      gather_action_keyframes action = inr ks ->
      res_mapM (angles_at arm_obj) ks = inr angs -> last ks = Some f ->
      io_fault w = DiskFull room ->
      (room < String.length (String.concat "" (document_lines (name action) ks angs)))%nat ->
      outcome arm_obj action out_path w
        (with_frame
           (exported w out_path
              (String.substring 0 room
                 (String.concat "" (document_lines (name action) ks angs))))
           f)
        (inl OSError)
  | out_ok ks angs :
      gather_action_keyframes action = inr ks -> ks <> [] ->
      res_mapM (angles_at arm_obj) ks = inr angs ->
      outcome arm_obj action out_path w
        (exported w out_path (String.concat "" (document_lines (name action) ks angs)))
        (inr out_path).

(** ** A recorded host for concrete runs

    An in-memory pose source: a transform is represented by the Euler
    angles its decomposition returns, the armature sits at the identity
    (composition yields the bone's transform), every transform is
    invertible, and directories are those of [posixpath.dirname]. *)

Fixpoint last_slash (s : string) : option nat :=
  match s with
  | EmptyString => None
  | String c s' =>
      match last_slash s' with
      | Some k => Some (S k)
      | None => if Ascii.eqb c "/" then Some O else None
      end
  end.

(** [s.rstrip('/')] *)
Fixpoint rstrip_slash (s : string) : string :=
  match s with
  | EmptyString => EmptyString
  | String c s' =>
      match rstrip_slash s' with
      | EmptyString => if Ascii.eqb c "/" then EmptyString else String c EmptyString
      | t => String c t
      end
  end.

(** [posixpath.dirname]: the text up to and including the last slash,
    without its trailing slashes unless it consists of slashes only. *)
Definition posix_dirname (path : string) : string :=
  match last_slash path with
  | Some k =>
      let head := String.substring 0 (S k) path in
      if str_forall (fun c => Ascii.eqb c "/") head then head else rstrip_slash head
  | None => ""
  end.

Definition recorded_host : Host := {|
  Matrix := Euler;
  inverted := fun m => Some m;
  matmul := fun _ m => m;
  to_euler_XYZ := fun m => m;
  path_dirname := posix_dirname
|}.

Definition fzero : float := S754_zero false.

Definition rest_euler : Euler := mkEuler fzero fzero fzero.

(** A rig where only ["Torso"] exists, at every frame. *)
Definition torso_only : Z -> @Armature recorded_host :=
  fun _ => @mkArmature recorded_host rest_euler
             [("Torso", @mkPoseBone recorded_host None rest_euler)].

Definition key (f : Z) : Keyframe := mkKeyframe (of_Z f) fzero.

(** The clip of the scenario: keyframes at frames 0 and 10 on two
    channels. *)
Definition slash_combo : Action :=
  mkAction "Slash Combo 1" [mkFCurve [key 0; key 10]; mkFCurve [key 10]].

Definition world0 (fault : IoFault) : World := mkWorld 37 ∅ ∅ fault.

Definition slash_combo_path : string := "proj/slashblade_project/anim/slash_combo_1.txt".

(** A rig with two bones, declared in either order. *)
Definition upper_arm : @PoseBone recorded_host :=
  @mkPoseBone recorded_host
    (Some (@mkPoseBone recorded_host None rest_euler))
    (mkEuler (of_Z 1) fzero (of_Z (-1))).

Definition torso_bone : @PoseBone recorded_host :=
  @mkPoseBone recorded_host None (mkEuler (of_Z 1) fzero fzero).

Definition rig_a : Z -> @Armature recorded_host :=
  fun _ => @mkArmature recorded_host rest_euler
             [("Torso", torso_bone); ("UpperArm_Left", upper_arm)].

Definition rig_b : Z -> @Armature recorded_host :=
  fun _ => @mkArmature recorded_host rest_euler
             [("UpperArm_Left", upper_arm); ("Torso", torso_bone)].

(** Another starting state: a different frame, a stale output file. *)
Definition world1 : World :=
  mkWorld 5 ∅ (<[ slash_combo_path := "stale" ]> ∅) NoFault.

(** The clip of the duration example: keyframes at frames 1, 5 and 12. *)
Definition three_keys : Action :=
  mkAction "Draw" [mkFCurve [key 12; key 1]; mkFCurve [key 5; key 1]].

(** ** The operator and the panel *)

Inductive ReportLevel : Type := ERROR | INFO.

Inductive OperatorResult : Type := FINISHED | CANCELLED.

(** [arm.animation_data], with its [action] slot. *)
Record AnimData := mkAnimData { anim_action : option Action }.

(** A scene object: its [type], its [animation_data] (or [None]) and, for
    the export, the armature it evaluates to at each frame. *)
Record Object `{Host} := mkObject {
  obj_type : string;
  animation_data : option AnimData;
  evaluated : Z -> Armature
}.

Arguments mkObject {_} _ _ _.

(** [context.active_object] and [context.object]. *)
Record Context `{Host} := mkContext {
  active_object : option Object;
  context_object : option Object
}.

Arguments mkContext {_} _ _.

(** [bpy.data.is_saved] and [bpy.data.filepath]. *)
Record BlendData := mkBlendData { is_saved : bool; filepath : string }.

(** [os.path.join] on two components (the three-argument call of the
    source joins from the left), and the text [str(e)] of an exception
    raised by the host libraries. *)
Class Os := {
  path_join : string -> string -> string;
  host_exn_text : exn -> string
}.

(** [str(e)]: a [RuntimeError] prints its message. *)
Definition exn_str `{Os} (e : exn) : string :=
  match e with
  | RuntimeError msg => msg
  | _ => host_exn_text e
  end.

(** What one invocation of the operator acts on: the scene and file
    system, the reports shown to the user, the tracebacks printed. *)
Record Session := mkSession {
  scene : World;
  reports : list (ReportLevel * string);
  printed : list exn
}.

(** [self.report({level}, msg)] *)
Definition report (s : Session) (level : ReportLevel) (msg : string) : Session :=
  mkSession (scene s) (reports s ++ [(level, msg)]) (printed s).

(** [action.name.lower().replace(" ", "_") + ".txt"] *)
Definition filename_of (anim_name : string) : string :=
  str_replace " " "_" (str_lower anim_name) +:+ ".txt".

(** The path the operator writes to. *)
Definition out_path_of `{Host} `{Os} (data : BlendData) (anim_name : string) : string :=
  let blend_dir := path_dirname (filepath data) in
  let folder := path_join (path_join blend_dir "slashblade_project") "anim" in
  path_join folder (filename_of anim_name).

(** [SLASHBLADE_OT_export_anim.execute] *)
Definition execute `{Host} `{Os} (data : BlendData) (context : Context) (s : Session)
  : Session * OperatorResult :=
  match active_object context with
  | None => (report s ERROR "Select an Armature object.", CANCELLED)
  | Some obj =>
      if negb (String.eqb (obj_type obj) "ARMATURE")
      then (report s ERROR "Select an Armature object.", CANCELLED)
      else
        let arm := obj in
        let action :=
          match animation_data arm with
          | Some ad => anim_action ad
          | None => None
          end in
        match action with
        | None => (report s ERROR "No Action found on the active Armature.", CANCELLED)
        | Some action =>
            if negb (is_saved data)
            then (report s ERROR "Please save your .blend file first.", CANCELLED)
            else
              let out_path := out_path_of data (name action) in
              match export_action_to_slashblade_text (evaluated arm) action out_path
                      (scene s) with
              | (w', inl e) =>
                  (report (mkSession w' (reports s) (printed s ++ [e])) ERROR
                     ("Export failed: " +:+ exn_str e),
                   CANCELLED)
              | (w', inr written) =>
                  (report (mkSession w' (reports s) (printed s)) INFO
                     ("Exported '" +:+ name action +:+ "' to: " +:+ written),
                   FINISHED)
              end
        end
  end.

(** [SLASHBLADE_PT_panel.poll] *)
Definition poll `{Host} (context : Context) : bool :=
  match context_object context with
  | Some ob => String.eqb (obj_type ob) "ARMATURE"
  | None => false
  end.

(** ** Reference definitions for the further properties *)

(** The signed mantissa of a finite float. *)
Definition signed_mantissa (s : bool) (m : positive) : Z :=
  if s then Z.neg m else Z.pos m.

(** [n] is an integer nearest to the float [x]: equal to it when [x] is
    an integer multiple of a power of two, at most half a unit away
    otherwise. *)
Definition nearest_integer (x : float) (n : Z) : Prop :=
  match x with
  | S754_zero _ => n = 0
  | S754_finite s m (Zneg p) =>
      Z.abs (2 * (n * 2 ^ Zpos p - signed_mantissa s m)) <= 2 ^ Zpos p
  | S754_finite s m e => n = signed_mantissa s m * 2 ^ e
  | _ => False
  end.

Fixpoint count_char (c : ascii) (s : string) : nat :=
  match s with
  | EmptyString => O
  | String a s' => ((if Ascii.eqb a c then 1 else 0) + count_char c s')%nat
  end.

Definition is_upper (c : ascii) : bool :=
  ((65 <=? nat_of_ascii c) && (nat_of_ascii c <=? 90))%nat.

Definition is_lower (c : ascii) : bool :=
  ((97 <=? nat_of_ascii c) && (nat_of_ascii c <=? 122))%nat.

Definition is_space (c : ascii) : bool := Ascii.eqb c " ".

(** The exceptions an export can end with. *)
Definition export_exn (e : exn) : Prop :=
  e = RuntimeError "No keyframes found in action!"
  \/ e = ValueError \/ e = OverflowError \/ e = OSError.

(** Every parent transform the export has to invert for this armature
    can be inverted. *)
Definition parents_invertible `{Host} (arm : Armature) : Prop :=
  forall bone_name pb p,
    bone_name ∈ BONE_ORDER ->
    bones_lookup (pose_bones arm) bone_name = Some pb ->
    parent pb = Some p -> is_Some (inverted (matrix p)).

(** The sum of the hold durations of the blocks [i], [i+1], ... *)
Fixpoint total_duration (frames : list Z) (i : nat) (rest : list Z) : Z :=
  match rest with
  | [] => 0
  | f :: rest' =>
      match frame_length frames i f with
      | inr d => d + total_duration frames (S i) rest'
      | inl _ => 0
      end
  end.

(** The frame numbers of a scene run from -1048574 to 1048574 (Blender's
    [MINAFRAME] and [MAXFRAME]); [scene.frame_set] moves the cursor to a
    frame of that range as it is given. *)
Definition scene_frame (f : Z) : Prop := -1048574 <= f <= 1048574.

(** The device takes the whole of [text]. *)
Definition write_ok (fault : IoFault) (text : string) : Prop :=
  match fault with
  | OpenFails => False
  | DiskFull room => (String.length text <= room)%nat
  | _ => True
  end.

(** The export gets as far as the file output: the frames extracted,
    every block assembled, the cursor on the last keyframe, and the
    finished document handed to the directory creation and the write. *)
Definition reaches_output `{Host} (arm_obj : Z -> Armature) (action : Action)
    (out_path : string) (w : World) : Prop :=
  exists ks angs f,
    gather_action_keyframes action = inr ks
    /\ res_mapM (angles_at arm_obj) ks = inr angs
    /\ last ks = Some f
    /\ export_action_to_slashblade_text arm_obj action out_path w
       = finish_export out_path (document_lines (name action) ks angs)
           (frame_current w) (with_frame w f).

(** ** A recorded operating system for concrete runs *)

Fixpoint ends_with_slash (s : string) : bool :=
  match s with
  | EmptyString => false
  | String c EmptyString => Ascii.eqb c "/"
  | String _ s' => ends_with_slash s'
  end.

(** [posixpath.join] on two components. *)
Definition posix_join (a b : string) : string :=
  if starts_with "/" b then b
  else if String.eqb a "" || ends_with_slash a then a +:+ b
  else a +:+ "/" +:+ b.

Definition recorded_os : Os := {|
  path_join := posix_join;
  host_exn_text := fun _ => "host error"
|}.

Definition armature_object (arm_obj : Z -> @Armature recorded_host)
    (action : option Action) : @Object recorded_host :=
  mkObject "ARMATURE" (Some (mkAnimData action)) arm_obj.

Definition saved_blend : BlendData := mkBlendData true "proj/scene.blend".

Definition session0 (fault : IoFault) : Session := mkSession (world0 fault) [] [].



(** A clip with one point at an infinite frame coordinate. *)
Definition runaway_clip : Action :=
  mkAction "Runaway" [mkFCurve [key 3; mkKeyframe (S754_infinity false) fzero]].

(** The characters ["{:.6f}"] can produce: digits, the sign, the point
    and the letters of [nan] and [inf]. *)
Definition number_char (c : ascii) : bool :=
  is_digit c || Ascii.eqb c "-" || Ascii.eqb c "." || Ascii.eqb c "n"
  || Ascii.eqb c "a" || Ascii.eqb c "i" || Ascii.eqb c "f".

(** A character of a normalised lower-case name: no space, no capital. *)
Definition lower_name_char (c : ascii) : bool := negb (is_space c) && negb (is_upper c).

(** A character of a normalised upper-case name: no space, no small letter. *)
Definition upper_name_char (c : ascii) : bool := negb (is_space c) && negb (is_lower c).

(** The operator's guards pass: the active object is an armature with an
    action, and the .blend file is saved. *)
Definition ready `{Host} (data : BlendData) (context : Context)
    (obj : Object) (action : Action) : Prop :=
  active_object context = Some obj
  /\ obj_type obj = "ARMATURE"
  /\ (exists ad, animation_data obj = Some ad /\ anim_action ad = Some action)
  /\ is_saved data = true.

(** [rig_a] with the armature object turned. *)
Definition rig_a_turned : Z -> @Armature recorded_host :=
  fun _ => @mkArmature recorded_host (mkEuler (of_Z 1) (of_Z 2) fzero)
             [("Torso", torso_bone); ("UpperArm_Left", upper_arm)].

Definition slash_combo_context : @Context recorded_host :=
  mkContext (Some (armature_object torso_only (Some slash_combo)))
            (Some (armature_object torso_only (Some slash_combo))).

(** * Properties *)

(** ** The definitions on small inputs *)

Example py_round_ties :
  py_round (binary_normalize prec emax 5 (-1) false) = inr 2      (* round(2.5) *)
  /\ py_round (binary_normalize prec emax 7 (-1) false) = inr 4   (* round(3.5) *)
  /\ py_round (binary_normalize prec emax (-1) (-1) false) = inr 0 (* round(-0.5) *)
  /\ py_round (S754_infinity false) = inl OverflowError
  /\ py_round S754_nan = inl ValueError.
Proof. repeat split. Qed.

Example format_6f_samples :
  format_6f (binary_normalize prec emax 1 (-3) false) = "0.125000"
  /\ format_6f (binary_normalize prec emax (-45) 1 false) = "-90.000000"
  /\ format_6f (binary_normalize prec emax 3 (-21) false) = "0.000001"
  /\ format_6f (binary_normalize prec emax (-1) (-40) false) = "-0.000000"
  /\ format_6f (degrees (radians ninety)) = "90.000000".
Proof. vm_compute. repeat split. Qed.

Example to_single_samples :
  to_single (radians ninety) = S754_finite false 13176795 (-23)   (* 0x1.921fb6p+0 *)
  /\ to_single (fdiv (of_Z 1) (of_Z 10)) = S754_finite false 13421773 (-27)
  /\ to_single (of_Z 3) = S754_finite false 12582912 (-22)        (* 3.0 *)
  /\ to_single (S754_finite false 1 (-200)) = S754_zero false
  /\ to_single (S754_finite false 1 200) = S754_infinity false
  /\ to_single S754_nan = S754_nan.
Proof. vm_compute. repeat split. Qed.

Example posix_dirname_samples :
  posix_dirname "proj/slashblade_project/anim/x.txt" = "proj/slashblade_project/anim"
  /\ posix_dirname "out.txt" = ""
  /\ posix_dirname "/out.txt" = "/"
  /\ posix_dirname "a//b" = "a"
  /\ posix_dirname "a/b/" = "a/b"
  /\ posix_dirname "//a" = "//".
Proof. vm_compute. repeat split. Qed.

Example makedirs_samples :
  @dir_chain recorded_host "a/b/c" = ["a/b/c"; "a/b"; "a"]
  /\ @dir_chain recorded_host "/a" = ["/a"; "/"]
  /\ dirs (fst (@makedirs recorded_host "a/b/c" (world0 NoFault)))
     = {[ "a"; "a/b"; "a/b/c" ]}
  /\ @makedirs recorded_host "a/b/c" (world0 (MkdirFails 1))
     = (add_dirs (world0 (MkdirFails 1)) ["a"], inl OSError)
  /\ @ensure_dir recorded_host "" (world0 NoFault) = (world0 NoFault, inl OSError).
Proof. vm_compute. repeat split. Qed.

Example write_stops_inside_a_line :
  let run := @export_action_to_slashblade_text recorded_host torso_only slash_combo
               slash_combo_path (world0 (DiskFull 50)) in
  snd run = inl OSError
  /\ files (fst run) !! slash_combo_path
     = Some ("--@name slashblade_project/anim/slash_combo_1" +:+ LF +:+ "SLAS").
Proof. vm_compute. repeat split. Qed.

Example gather_three_keys : gather_action_keyframes three_keys = inr [1; 5; 12].
Proof. vm_compute. reflexivity. Qed.

Example header_of_slash_combo :
  header_of "Slash Combo 1"
  = "--@name slashblade_project/anim/slash_combo_1" +:+ LF
      +:+ "SLASH_COMBO_1={" +:+ LF.
Proof. reflexivity. Qed.

Example export_slash_combo :
  let run := @export_action_to_slashblade_text recorded_host torso_only slash_combo
               slash_combo_path (world0 NoFault) in
  snd run = inr slash_combo_path
  /\ frame_current (fst run) = 37
  /\ files (fst run) !! slash_combo_path
     = Some (String.concat ""
               (slash_combo_lines "Angle(-90.000003,0.000000,0.000000)"
                                  "Angle(-90.000003,0.000000,0.000000)")).
Proof. vm_compute. repeat split. Qed.

(** ** Results and the monad *)

Lemma res_bind_inr {A B} (r : result A) (k : A -> result B) b :
  res_bind r k = inr b -> exists a, r = inr a /\ k a = inr b.
Proof. destruct r as [e|a]; simpl; [discriminate|]. eauto. Qed.

Lemma res_mapM_length {A B} (f : A -> result B) l bs :
  res_mapM f l = inr bs -> length bs = length l.
Proof.
  revert bs. induction l as [|a l IH]; simpl; intros bs Hm.
  - by inversion Hm.
  - apply res_bind_inr in Hm as (b & _ & Hm).
    apply res_bind_inr in Hm as (bs' & Hbs & Hm).
    inversion Hm; subst. simpl. f_equal. by apply IH.
Qed.

Lemma res_mapM_lookup {A B} (f : A -> result B) l bs i a :
  res_mapM f l = inr bs -> l !! i = Some a ->
  exists b, f a = inr b /\ bs !! i = Some b.
Proof.
  revert bs i. induction l as [|a' l IH]; simpl; intros bs i Hm Hl.
  - by rewrite lookup_nil in Hl.
  - apply res_bind_inr in Hm as (b & Hb & Hm).
    apply res_bind_inr in Hm as (bs' & Hbs & Hm).
    inversion Hm; subst. destruct i as [|i]; simpl in *.
    + inversion Hl; subst. eauto.
    + eauto.
Qed.

Lemma res_mapM_ext {A B} (f g : A -> result B) l :
  (forall a, a ∈ l -> f a = g a) -> res_mapM f l = res_mapM g l.
Proof.
  induction l as [|a l IH]; simpl; intros Hfg; [done|].
  rewrite Hfg by left. rewrite IH; [done|]. intros. apply Hfg. by right.
Qed.

(** ** Keyframe extractor *)

Lemma py_round_finite x : is_finite x = true -> py_round x = inr (frame_of x).
Proof. unfold frame_of. by destruct x. Qed.

Lemma py_round_inr x n : py_round x = inr n -> n = frame_of x.
Proof. unfold frame_of. by intros ->. Qed.

Lemma gather_points_finite kps frames :
  Forall (fun kp => is_finite (co_x kp) = true) kps ->
  gather_points kps frames
  = inr (list_to_set (map (fun kp => frame_of (co_x kp)) kps) ∪ frames).
Proof.
  intros Hfin. revert frames.
  induction Hfin as [|kp kps Hkp _ IH]; intros frames; simpl.
  - f_equal. set_solver.
  - rewrite (py_round_finite _ Hkp). simpl. rewrite IH. f_equal. set_solver.
Qed.

Lemma gather_curves_finite fcus frames :
  Forall (fun kp => is_finite (co_x kp) = true) (concat (map keyframe_points fcus)) ->
  gather_curves fcus frames
  = inr (list_to_set (map (fun kp => frame_of (co_x kp))
                          (concat (map keyframe_points fcus))) ∪ frames).
Proof.
  revert frames. induction fcus as [|fcu fcus IH]; intros frames Hfin; simpl in *.
  - f_equal. set_solver.
  - apply Forall_app in Hfin as [Hfcu Hrest].
    rewrite (gather_points_finite _ _ Hfcu). simpl.
    rewrite (IH _ Hrest). f_equal. rewrite map_app, list_to_set_app_L. set_solver.
Qed.

Lemma StronglySorted_le_NoDup_lt (l : list Z) :
  StronglySorted Z.le l -> NoDup l -> StronglySorted Z.lt l.
Proof.
  induction 1 as [|x l Hl IH Hx]; intros Hnd; [constructor|].
  apply NoDup_cons in Hnd as [Hnotin Hnd].
  constructor; [by apply IH|].
  rewrite Forall_forall in Hx |- *. intros y Hy.
  assert (x <> y) by (intros ->; contradiction).
  specialize (Hx y Hy). lia.
Qed.

Lemma sorted_Permutation (frames : gset Z) : sorted frames ≡ₚ elements frames.
Proof. apply merge_sort_Permutation. Qed.

Lemma sorted_NoDup (frames : gset Z) : NoDup (sorted frames).
Proof. rewrite sorted_Permutation. apply NoDup_elements. Qed.

Lemma sorted_strict (frames : gset Z) : StronglySorted Z.lt (sorted frames).
Proof.
  apply StronglySorted_le_NoDup_lt; [|apply sorted_NoDup].
  apply StronglySorted_merge_sort; apply _.
Qed.

Lemma elem_of_sorted (frames : gset Z) n : n ∈ sorted frames <-> n ∈ frames.
Proof. rewrite sorted_Permutation. apply elem_of_elements. Qed.

Lemma StronglySorted_lt_NoDup (l : list Z) : StronglySorted Z.lt l -> NoDup l.
Proof.
  induction 1 as [|x l Hl IH Hx]; constructor; [|done].
  intros Hin. rewrite Forall_forall in Hx. specialize (Hx x Hin). lia.
Qed.

Lemma StronglySorted_lt_le (l : list Z) : StronglySorted Z.lt l -> StronglySorted Z.le l.
Proof.
  induction 1 as [|x l Hl IH Hx]; constructor; [done|].
  eapply Forall_impl; [exact Hx|]. intros; simpl in *; lia.
Qed.

Lemma gather_sorted action ks :
  gather_action_keyframes action = inr ks -> StronglySorted Z.lt ks.
Proof.
  unfold gather_action_keyframes. intros Hg.
  apply res_bind_inr in Hg as (frames & _ & Hks).
  inversion Hks; subst. apply sorted_strict.
Qed.

(** C4. On a clip whose frame coordinates are finite reals, the extractor
    returns the one strictly ascending list whose members are exactly the
    rounded coordinates [round(kp.co.x)] of the keyframe points of all
    channels: it is sorted, has no duplicates, is no longer than the
    number of points and is non-empty as soon as there is a point. *)
Theorem gather_action_keyframes_spec (action : Action) :
  finite_clip action ->
  exists ks,
    gather_action_keyframes action = inr ks
    /\ StronglySorted Z.lt ks
    /\ NoDup ks
    /\ (forall n, n ∈ ks <->
          exists kp, kp ∈ action_points action /\ py_round (co_x kp) = inr n)
    /\ (forall l, StronglySorted Z.lt l ->
          (forall n, n ∈ l <->
             exists kp, kp ∈ action_points action /\ py_round (co_x kp) = inr n) ->
          l = ks)
    /\ (length ks <= length (action_points action))%nat
    /\ (action_points action <> [] -> ks <> []).
Proof.
  intros Hfin. unfold gather_action_keyframes.
  rewrite (gather_curves_finite _ _ Hfin). fold (action_points action). simpl.
  set (pts := action_points action) in *.
  set (frames := list_to_set (map (fun kp => frame_of (co_x kp)) pts) ∪ ∅ : gset Z).
  assert (Hmem : forall n, n ∈ sorted frames <->
            exists kp, kp ∈ pts /\ py_round (co_x kp) = inr n).
  { intros n. rewrite elem_of_sorted. unfold frames.
    rewrite elem_of_union, elem_of_list_to_set, list_elem_of_fmap. split.
    - intros [(kp & -> & Hkp)|Hemp]; [|set_solver].
      exists kp. split; [done|]. apply py_round_finite.
      unfold finite_clip in Hfin. rewrite Forall_forall in Hfin. by apply Hfin.
    - intros (kp & Hkp & Hr). left. exists kp. split; [|done].
      by apply py_round_inr. }
  exists (sorted frames). split; [done|].
  split; [apply sorted_strict|]. split; [apply sorted_NoDup|].
  split; [exact Hmem|]. split; [|split].
  - intros l Hl Hlmem.
    apply (StronglySorted_unique Z.le).
    + by apply StronglySorted_lt_le.
    + apply StronglySorted_lt_le, sorted_strict.
    + apply NoDup_Permutation.
      * by apply StronglySorted_lt_NoDup.
      * apply sorted_NoDup.
      * intros n. by rewrite Hlmem, Hmem.
  - rewrite <- (length_map (fun kp => frame_of (co_x kp)) pts).
    apply submseteq_length, NoDup_submseteq; [apply sorted_NoDup|].
    intros n Hn. apply Hmem in Hn as (kp & Hkp & Hr).
    apply list_elem_of_fmap. exists kp. split; [by apply py_round_inr|done].
  - intros Hne Hnil. destruct pts as [|kp pts'] eqn:Hpts; [done|].
    assert (Hin : frame_of (co_x kp) ∈ sorted frames).
    { apply Hmem. exists kp. split; [left|].
      apply py_round_finite. unfold finite_clip in Hfin.
      rewrite Forall_forall in Hfin. apply Hfin. fold pts. rewrite Hpts. left. }
    rewrite Hnil in Hin. by apply elem_of_nil in Hin.
Qed.

Lemma gather_action_keyframes_spec_witness :
  finite_clip slash_combo
  /\ exists ks,
    gather_action_keyframes slash_combo = inr ks
    /\ StronglySorted Z.lt ks
    /\ NoDup ks
    /\ (forall n, n ∈ ks <->
          exists kp, kp ∈ action_points slash_combo /\ py_round (co_x kp) = inr n)
    /\ (forall l, StronglySorted Z.lt l ->
          (forall n, n ∈ l <->
             exists kp, kp ∈ action_points slash_combo /\ py_round (co_x kp) = inr n) ->
          l = ks)
    /\ (length ks <= length (action_points slash_combo))%nat
    /\ (action_points slash_combo <> [] -> ks <> []).
Proof.
  assert (Hfin : finite_clip slash_combo) by (repeat constructor).
  split; [exact Hfin|]. exact (gather_action_keyframes_spec slash_combo Hfin).
Defined.

(** ** Hold durations and blocks *)

Lemma has_next_true ks i : has_next ks i = true <-> (S i < length ks)%nat.
Proof. unfold has_next. rewrite Z.ltb_lt. lia. Qed.

Lemma has_next_last ks i :
  (i < length ks)%nat -> has_next ks i = negb (bool_decide (S i = length ks)).
Proof.
  intros Hi. destruct (has_next ks i) eqn:Hn.
  - apply has_next_true in Hn. rewrite bool_decide_eq_false_2 by lia. done.
  - rewrite bool_decide_eq_true_2; [done|].
    destruct (decide (S i = length ks)) as [|Hne]; [done|].
    assert (has_next ks i = true) as Ht by (apply has_next_true; lia).
    congruence.
Qed.

Lemma frame_length_ok ks i f :
  ks !! i = Some f -> frame_length ks i f = inr (hold_duration ks i).
Proof.
  intros Hi. unfold frame_length, hold_duration. rewrite Hi.
  destruct (has_next ks i) eqn:Hn.
  - apply has_next_true in Hn. apply lookup_lt_is_Some_2 in Hn as [g Hg].
    by rewrite Hg.
  - assert (ks !! S i = None) as ->; [|done].
    apply lookup_ge_None. destruct (decide (S i < length ks)%nat) as [Hlt|]; [|lia].
    apply has_next_true in Hlt. congruence.
Qed.

Lemma block_lines_block_at ks i a :
  (i < length ks)%nat -> block_lines ks i a (hold_duration ks i) = block_at ks i a.
Proof.
  intros Hi. unfold block_lines, block_at. rewrite (has_next_last _ _ Hi).
  by destruct (bool_decide (S i = length ks)).
Qed.

Lemma block_at_length ks i a : length (block_at ks i a) = (length a + 4)%nat.
Proof. unfold block_at. simpl. rewrite length_app, length_map. simpl. lia. Qed.

Lemma blocks_from_lookup ks i angs k a j :
  Forall (fun a => length a = 9%nat) angs ->
  angs !! k = Some a -> (j < 13)%nat ->
  blocks_from ks i angs !! (13 * k + j)%nat = block_at ks (i + k) a !! j.
Proof.
  intros Hlen. revert i k. induction Hlen as [|a0 angs Ha0 _ IH]; intros i k Hk Hj.
  - by rewrite lookup_nil in Hk.
  - cbn [blocks_from]. destruct k as [|k].
    + inversion Hk; subst. replace (13 * 0 + j)%nat with j by lia.
      rewrite lookup_app_l by (rewrite block_at_length; lia).
      by rewrite Nat.add_0_r.
    + rewrite lookup_app_r by (rewrite block_at_length; lia).
      rewrite block_at_length, Ha0.
      replace (13 * S k + j - (9 + 4))%nat with (13 * k + j)%nat by lia.
      rewrite (IH (S i) k Hk Hj). by replace (S i + k)%nat with (i + S k)%nat by lia.
Qed.

Lemma blocks_from_length ks i angs :
  Forall (fun a => length a = 9%nat) angs ->
  length (blocks_from ks i angs) = (13 * length angs)%nat.
Proof.
  intros Hlen. revert i.
  induction Hlen as [|a angs Ha _ IH]; intros i; cbn [blocks_from]; [done|].
  rewrite length_app, block_at_length, Ha, IH. simpl. lia.
Qed.

Lemma angles_at_length `{Host} (arm_obj : Z -> Armature) f a :
  angles_at arm_obj f = inr a -> length a = 9%nat.
Proof. intros Ha. by apply res_mapM_length in Ha. Qed.

Lemma angles_all_length `{Host} (arm_obj : Z -> Armature) ks angs :
  res_mapM (angles_at arm_obj) ks = inr angs ->
  Forall (fun a => length a = 9%nat) angs.
Proof.
  revert angs. induction ks as [|f ks IH]; simpl; intros angs Hm.
  - inversion Hm. constructor.
  - apply res_bind_inr in Hm as (a & Ha & Hm).
    apply res_bind_inr in Hm as (angs' & Hangs & Hm).
    inversion Hm; subst. constructor; [by eapply angles_at_length|by apply IH].
Qed.

(** ** The keyframe loop *)

Ltac step_loop arm_obj ks i f Hi :=
  cbn [export_loop];
  unfold bind at 1, frame_set; unfold bind at 1, lift;
  rewrite (frame_length_ok ks i f Hi);
  unfold bind at 1, read_armature; unfold bind at 1, lift;
  change (res_mapM (angle_line (arm_obj (frame_current (with_frame _ f)))) BONE_ORDER)
    with (angles_at arm_obj f).

Lemma with_frame_twice w f g : with_frame (with_frame w f) g = with_frame w g.
Proof. done. Qed.

Lemma export_loop_ok `{Host} (arm_obj : Z -> Armature) ks rest : forall i lines w angs,
  (forall k f, rest !! k = Some f -> ks !! (i + k)%nat = Some f) ->
  res_mapM (angles_at arm_obj) rest = inr angs ->
  export_loop arm_obj ks i rest lines w
  = (with_frame w (default (frame_current w) (last rest)),
     inr (lines ++ blocks_from ks i angs)).
Proof.
  induction rest as [|f rest IH]; intros i lines w angs Hks Hm.
  - inversion Hm; subst. simpl. rewrite app_nil_r. by destruct w.
  - cbn [res_mapM] in Hm. apply res_bind_inr in Hm as (a & Ha & Hm).
    apply res_bind_inr in Hm as (angs' & Hangs & Hm). inversion Hm; subst.
    assert (Hi : ks !! i = Some f).
    { specialize (Hks 0%nat f eq_refl). by rewrite Nat.add_0_r in Hks. }
    step_loop arm_obj ks i f Hi. rewrite Ha.
    rewrite (IH (S i) _ _ angs').
    + rewrite block_lines_block_at by (by eapply lookup_lt_Some).
      cbn [blocks_from]. rewrite <- app_assoc, with_frame_twice.
      f_equal. f_equal. destruct rest as [|g rest']; [done|].
      change (last (f :: g :: rest')) with (last (g :: rest')).
      destruct (last (g :: rest')) as [x|] eqn:Hlast; [done|].
      by apply last_None in Hlast.
    + intros k g Hk. specialize (Hks (S k) g Hk).
      by replace (S i + k)%nat with (i + S k)%nat by lia.
    + done.
Qed.

Lemma export_loop_err `{Host} (arm_obj : Z -> Armature) ks rest : forall i lines w e,
  (forall k f, rest !! k = Some f -> ks !! (i + k)%nat = Some f) ->
  res_mapM (angles_at arm_obj) rest = inl e ->
  exists f, f ∈ rest /\ export_loop arm_obj ks i rest lines w = (with_frame w f, inl e).
Proof.
  induction rest as [|f rest IH]; intros i lines w e Hks Hm; [done|].
  assert (Hi : ks !! i = Some f).
  { specialize (Hks 0%nat f eq_refl). by rewrite Nat.add_0_r in Hks. }
  step_loop arm_obj ks i f Hi. cbn [res_mapM] in Hm.
  destruct (angles_at arm_obj f) as [e'|a] eqn:Ha; simpl in Hm.
  - inversion Hm; subst. exists f. split; [left|done].
  - destruct (res_mapM (angles_at arm_obj) rest) as [e'|angs'] eqn:Hrest;
      simpl in Hm; [|done]. inversion Hm; subst.
    destruct (IH (S i) (lines ++ block_lines ks i a (hold_duration ks i))
                 (with_frame w f) e) as (g & Hg & Hrun).
    + intros k g Hk. specialize (Hks (S k) g Hk).
      by replace (S i + k)%nat with (i + S k)%nat by lia.
    + done.
    + exists g. split; [by right|]. by rewrite Hrun, with_frame_twice.
Qed.

(** ** The export as a whole *)

Lemma export_gather_err `{Host} (arm_obj : Z -> Armature) action out_path w e :
  gather_action_keyframes action = inl e ->
  export_action_to_slashblade_text arm_obj action out_path w = (w, inl e).
Proof.
  intros Hg. unfold export_action_to_slashblade_text, bind at 1, lift. by rewrite Hg.
Qed.

Lemma export_no_keyframes `{Host} (arm_obj : Z -> Armature) action out_path w :
  gather_action_keyframes action = inr [] ->
  export_action_to_slashblade_text arm_obj action out_path w
  = (w, inl (RuntimeError "No keyframes found in action!")).
Proof.
  intros Hg. unfold export_action_to_slashblade_text, bind at 1, lift. by rewrite Hg.
Qed.

Lemma lookup_self_offset (ks : list Z) k f : ks !! k = Some f -> ks !! (0 + k)%nat = Some f.
Proof. done. Qed.

Lemma export_pose_err `{Host} (arm_obj : Z -> Armature) action out_path w ks e :
  gather_action_keyframes action = inr ks ->
  res_mapM (angles_at arm_obj) ks = inl e ->
  exists f, f ∈ ks
    /\ export_action_to_slashblade_text arm_obj action out_path w = (with_frame w f, inl e).
Proof.
  intros Hg Hm. destruct ks as [|k0 ks']; [done|].
  destruct (export_loop_err arm_obj (k0 :: ks') (k0 :: ks') 0
              [header_of (name action)] w e (lookup_self_offset _) Hm)
    as (f & Hf & Hrun).
  exists f. split; [done|].
  unfold export_action_to_slashblade_text, bind at 1, lift. rewrite Hg.
  unfold bind at 1, get_frame. unfold bind at 1. by rewrite Hrun.
Qed.

Lemma export_assembled `{Host} (arm_obj : Z -> Armature) action out_path w ks angs :
  gather_action_keyframes action = inr ks -> ks <> [] ->
  res_mapM (angles_at arm_obj) ks = inr angs ->
  export_action_to_slashblade_text arm_obj action out_path w
  = finish_export out_path (document_lines (name action) ks angs) (frame_current w)
      (with_frame w (default (frame_current w) (last ks))).
Proof.
  intros Hg Hne Hm. destruct ks as [|k0 ks']; [done|].
  unfold export_action_to_slashblade_text, bind at 1, lift. rewrite Hg.
  unfold bind at 1, get_frame. unfold bind at 1.
  rewrite (export_loop_ok arm_obj (k0 :: ks') (k0 :: ks') 0 _ w angs
             (lookup_self_offset _) Hm).
  done.
Qed.

Lemma path_exists_with_frame w f d : path_exists (with_frame w f) d = path_exists w d.
Proof. done. Qed.

Lemma path_exists_more w w' d :
  dirs w ⊆ dirs w' -> (forall t, files w !! d = Some t -> is_Some (files w' !! d)) ->
  path_exists w d = true -> path_exists w' d = true.
Proof.
  unfold path_exists. intros Hd Hf Hex.
  apply andb_true_iff in Hex as [Hne Hex]. rewrite Hne. simpl.
  apply orb_true_iff in Hex as [Hex|Hex]; apply orb_true_iff.
  - left. apply bool_decide_eq_true. apply bool_decide_eq_true in Hex. set_solver.
  - right. apply bool_decide_eq_true. apply bool_decide_eq_true in Hex.
    destruct Hex as [t Ht]. by eapply Hf.
Qed.

Lemma dir_chain_head `{Host} d : d <> "" -> d ∈ dir_chain d.
Proof.
  intros Hne. unfold dir_chain. destruct d as [|c d]; [done|].
  cbn [String.length ancestors]. rewrite (proj2 (String.eqb_neq _ _) Hne). left.
Qed.

Lemma ensure_dir_with_frame `{Host} d w f :
  ensure_dir d (with_frame w f)
  = (with_frame (fst (ensure_dir d w)) f, snd (ensure_dir d w)).
Proof.
  unfold ensure_dir, makedirs. rewrite path_exists_with_frame.
  destruct (path_exists w d); [done|].
  destruct (String.eqb d ""); [done|].
  change (io_fault (with_frame w f)) with (io_fault w). by destruct (io_fault w).
Qed.

Lemma ensure_dir_ok `{Host} d w w1 :
  ensure_dir d w = (w1, inr tt) -> w1 = ensured w d /\ path_exists w1 d = true.
Proof.
  unfold ensure_dir, ensured, makedirs.
  destruct (path_exists w d) eqn:Hex; [by intros [= <-]|].
  destruct (String.eqb d "") eqn:Hd; [discriminate|]. apply String.eqb_neq in Hd.
  intros Hrun. assert (w1 = add_dirs w (dir_chain d)) as ->
    by (destruct (io_fault w); by inversion Hrun).
  split; [done|]. unfold path_exists. rewrite (proj2 (String.eqb_neq _ _) Hd). simpl.
  apply orb_true_iff. left. apply bool_decide_eq_true.
  pose proof (dir_chain_head d Hd). set_solver.
Qed.

Lemma take_reverse_tail_subseteq {A} (l : list A) k x :
  x ∈ take k (reverse (tail l)) -> x ∈ l.
Proof.
  intros Hx. apply elem_of_take in Hx as (i & Hi & _).
  apply list_elem_of_lookup_2 in Hi. rewrite elem_of_reverse in Hi.
  destruct l as [|a l]; simpl in Hi; [by apply elem_of_nil in Hi|].
  apply elem_of_cons. by right.
Qed.

Lemma ensure_dir_err `{Host} d w w1 e :
  ensure_dir d w = (w1, inl e) ->
  e = OSError /\ path_exists w d = false
  /\ files w1 = files w /\ frame_current w1 = frame_current w
  /\ io_fault w1 = io_fault w
  /\ dirs w ⊆ dirs w1 /\ dirs w1 ⊆ list_to_set (dir_chain d) ∪ dirs w.
Proof.
  unfold ensure_dir, makedirs.
  destruct (path_exists w d) eqn:Hex; [discriminate|].
  destruct (String.eqb d "") eqn:Hd.
  { intros [= <- <-]. repeat split; set_solver. }
  destruct (io_fault w) as [|made| |room] eqn:Hfault; try discriminate.
  intros [= <- <-]. repeat split; simpl; try done; [set_solver|].
  intros x Hx. apply elem_of_union in Hx as [Hx|Hx]; [|set_solver].
  apply elem_of_list_to_set in Hx. apply take_reverse_tail_subseteq in Hx. set_solver.
Qed.

Lemma ensure_dir_exists `{Host} path w :
  path_exists w path = true -> ensure_dir path w = (w, inr tt).
Proof. unfold ensure_dir. by intros ->. Qed.

Lemma ensured_files `{Host} w d : files (ensured w d) = files w.
Proof. unfold ensured. by destruct (path_exists _ _). Qed.

Lemma ensured_frame `{Host} w d : frame_current (ensured w d) = frame_current w.
Proof. unfold ensured. by destruct (path_exists _ _). Qed.

Lemma ensured_fault `{Host} w d : io_fault (ensured w d) = io_fault w.
Proof. unfold ensured. by destruct (path_exists _ _). Qed.

Lemma ensured_dirs `{Host} w d :
  dirs w ⊆ dirs (ensured w d)
  /\ dirs (ensured w d) ⊆ list_to_set (dir_chain d) ∪ dirs w.
Proof. unfold ensured. destruct (path_exists w d); simpl; set_solver. Qed.

Lemma exported_files `{Host} w out_path text :
  files (exported w out_path text) = <[ out_path := text ]> (files w).
Proof. unfold exported, ensured. by destruct (path_exists _ _). Qed.

Lemma exported_frame `{Host} w out_path text :
  frame_current (exported w out_path text) = frame_current w.
Proof. unfold exported, ensured. by destruct (path_exists _ _). Qed.

Lemma exported_fault `{Host} w out_path text :
  io_fault (exported w out_path text) = io_fault w.
Proof. unfold exported, ensured. by destruct (path_exists _ _). Qed.

Lemma exported_dirs `{Host} w out_path text :
  dirs (exported w out_path text) = dirs (ensured w (path_dirname out_path)).
Proof. done. Qed.


(** The file output, case by case: the directory cannot be made; it
    exists or is made and [open] fails; the device takes a part of the
    text only; or the whole text is written and the cursor set back. *)
Lemma finish_export_cases `{Host} out_path lines orig w :
  finish_export out_path lines orig w
  = let d := path_dirname out_path in
    let text := String.concat "" lines in
    match ensure_dir d w with
    | (w1, inl e) => (w1, inl e)
    | (w1, inr _) =>
        let done_ := (with_frame (set_file w1 out_path text) orig, inr out_path) in
        match io_fault w with
        | OpenFails => (w1, inl OSError)
        | DiskFull room =>
            if (room <? String.length text)%nat
            then (set_file w1 out_path (String.substring 0 room text), inl OSError)
            else done_
        | _ => done_
        end
    end.
Proof.
  unfold finish_export, bind. cbv zeta.
  destruct (ensure_dir (path_dirname out_path) w) as [w1 [e|[]]] eqn:Hdir; [done|].
  apply ensure_dir_ok in Hdir as [-> _].
  unfold write_lines, frame_set, ret. rewrite ensured_fault.
  destruct (io_fault w) as [|made| |room]; try done.
  by destruct (room <? _)%nat.
Qed.

Lemma finish_export_ok `{Host} out_path lines orig w :
  path_exists w (path_dirname out_path) = true ->
  write_ok (io_fault w) (String.concat "" lines) ->
  finish_export out_path lines orig w
  = (with_frame (set_file w out_path (String.concat "" lines)) orig, inr out_path).
Proof.
  intros Hex Hw. rewrite finish_export_cases. cbv zeta.
  rewrite (ensure_dir_exists _ _ Hex).
  destruct (io_fault w) as [|made| |room]; try done. simpl in Hw.
  by rewrite (proj2 (Nat.ltb_ge _ _) Hw).
Qed.

Lemma last_is_Some_cons {A} (x : A) l : exists y, last (x :: l) = Some y.
Proof.
  destruct (last (x :: l)) as [y|] eqn:Hl; [by exists y|].
  by apply last_None in Hl.
Qed.

Lemma export_assembled_last `{Host} (arm_obj : Z -> Armature) action out_path w ks angs :
  gather_action_keyframes action = inr ks -> ks <> [] ->
  res_mapM (angles_at arm_obj) ks = inr angs ->
  exists f, last ks = Some f
    /\ export_action_to_slashblade_text arm_obj action out_path w
       = finish_export out_path (document_lines (name action) ks angs) (frame_current w)
           (with_frame w f).
Proof.
  intros Hg Hne Hm. rewrite (export_assembled _ _ _ _ _ _ Hg Hne Hm).
  destruct ks as [|k0 ks']; [done|].
  destruct (last_is_Some_cons k0 ks') as [f Hlast]. exists f. by rewrite Hlast.
Qed.

(** What a run that got to the file output ends with, and what made the
    write succeed when it did. *)
Lemma finish_export_outcome `{Host} out_path lines orig w f w' r :
  finish_export out_path lines orig (with_frame w f) = (w', r) ->
  let d := path_dirname out_path in
  let text := String.concat "" lines in
  (exists w1, ensure_dir d w = (w1, inl OSError) /\ w' = with_frame w1 f /\ r = inl OSError)
  \/ (io_fault w = OpenFails /\ w' = with_frame (ensured w d) f /\ r = inl OSError)
  \/ (exists room, io_fault w = DiskFull room /\ (room < String.length text)%nat
        /\ w' = with_frame (exported w out_path (String.substring 0 room text)) f
        /\ r = inl OSError)
  \/ (ensure_dir d w = (ensured w d, inr tt) /\ write_ok (io_fault w) text
        /\ w' = with_frame (exported w out_path text) orig /\ r = inr out_path).
Proof.
  intros Hrun. cbv zeta. rewrite finish_export_cases in Hrun. cbv zeta in Hrun.
  rewrite ensure_dir_with_frame in Hrun.
  change (io_fault (with_frame w f)) with (io_fault w) in Hrun.
  destruct (ensure_dir (path_dirname out_path) w) as [w1 [e|[]]] eqn:Hdir;
    cbn [fst snd] in Hrun.
  { pose proof (ensure_dir_err _ _ _ _ Hdir) as [-> _].
    inversion Hrun; subst. left. eauto. }
  pose proof (ensure_dir_ok _ _ _ Hdir) as [-> _]. right.
  assert (Hdone : (with_frame
                     (set_file (with_frame (ensured w (path_dirname out_path)) f)
                        out_path (String.concat "" lines)) orig, inr out_path) = (w', r) ->
                  w' = with_frame (exported w out_path (String.concat "" lines)) orig
                  /\ r = inr out_path)
    by (by intros [= <- <-]).
  destruct (io_fault w) as [|made| |room] eqn:Hfault.
  - right. right. destruct (Hdone Hrun) as [-> ->]. done.
  - right. right. destruct (Hdone Hrun) as [-> ->]. done.
  - left. inversion Hrun; subst. done.
  - destruct (room <? _)%nat eqn:Hroom.
    + right. left. apply Nat.ltb_lt in Hroom. inversion Hrun; subst.
      exists room. done.
    + right. right. apply Nat.ltb_ge in Hroom. destruct (Hdone Hrun) as [-> ->]. done.
Qed.

Lemma with_frame_exported `{Host} w out_path text :
  with_frame (exported w out_path text) (frame_current w) = exported w out_path text.
Proof. rewrite <- (exported_frame w out_path text). by destruct (exported _ _ _). Qed.

Lemma export_outcome `{Host} (arm_obj : Z -> Armature) action out_path w w' r :
  export_action_to_slashblade_text arm_obj action out_path w = (w', r) ->
  outcome arm_obj action out_path w w' r.
Proof.
  intros Hrun.
  destruct (gather_action_keyframes action) as [e|ks] eqn:Hg.
  { rewrite (export_gather_err _ _ _ _ _ Hg) in Hrun. inversion Hrun; subst.
    by apply out_gather_err. }
  destruct ks as [|k0 ks'].
  { rewrite (export_no_keyframes _ _ _ _ Hg) in Hrun. inversion Hrun; subst.
    by apply out_no_keyframes. }
  destruct (res_mapM (angles_at arm_obj) (k0 :: ks')) as [e|angs] eqn:Hm.
  { destruct (export_pose_err _ _ out_path w _ _ Hg Hm) as (f & Hf & Hrun').
    rewrite Hrun' in Hrun. inversion Hrun; subst. by eapply out_pose_err. }
  destruct (export_assembled_last _ _ out_path w _ _ Hg ltac:(done) Hm)
    as (f & Hlast & Hrun').
  rewrite Hrun' in Hrun. apply finish_export_outcome in Hrun. cbv zeta in Hrun.
  destruct Hrun as [(w1 & Hdir & -> & ->)|[(Hfault & -> & ->)|
                    [(room & Hfault & Hroom & -> & ->)|(_ & _ & -> & ->)]]].
  - by eapply out_dir_err.
  - by eapply out_open_err.
  - by eapply out_write_err.
  - rewrite with_frame_exported. by apply out_ok.
Qed.

Lemma export_success_inv `{Host} (arm_obj : Z -> Armature) action out_path w w' p :
  export_action_to_slashblade_text arm_obj action out_path w = (w', inr p) ->
  exists ks angs,
    gather_action_keyframes action = inr ks /\ ks <> []
    /\ res_mapM (angles_at arm_obj) ks = inr angs
    /\ p = out_path
    /\ w' = exported w out_path
              (String.concat "" (document_lines (name action) ks angs)).
Proof.
  intros Hrun. apply export_outcome in Hrun. inversion Hrun; subst. eauto 10.
Qed.

Ltac same_keyframes :=
  repeat match goal with
  | Ha : ?t = inr ?a, Hb : ?t = inr ?b |- _ =>
      rewrite Ha in Hb; inversion Hb; subst; clear Hb
  | Ha : ?t = inl ?a, Hb : ?t = inr ?b |- _ =>
      rewrite Ha in Hb; discriminate Hb
  | Ha : ?t = inr ?a, Hb : ?t = inl ?b |- _ =>
      rewrite Ha in Hb; discriminate Hb
  end.

(** ** The frame cursor *)

(** Where the cursor stands after a run. A run that completes, and a run
    that aborts before the first seek (the extraction raises, or there is
    no keyframe), leave the scene's current frame as it was; a run that
    aborts later, in the pose evaluation or in the file output, leaves
    the cursor on a keyframe of the clip. *)
Theorem frame_cursor_after_export `{Host} (arm_obj : Z -> Armature)
    action out_path w w' r :
  export_action_to_slashblade_text arm_obj action out_path w = (w', r) ->
  (forall p, r = inr p -> frame_current w' = frame_current w)
  /\ (forall e, gather_action_keyframes action = inl e ->
        frame_current w' = frame_current w)
  /\ (gather_action_keyframes action = inr [] -> frame_current w' = frame_current w)
  /\ (forall e ks, r = inl e -> gather_action_keyframes action = inr ks -> ks <> [] ->
        frame_current w' ∈ ks).
Proof.
  intros Hrun. apply export_outcome in Hrun.
  assert (Hlast : forall (ks : list Z) f, last ks = Some f -> f ∈ ks).
  { intros ks f Hl. apply last_Some in Hl as [l' ->]. set_solver. }
  inversion Hrun; subst; repeat split; intros; same_keyframes;
    rewrite ?exported_frame; simpl; rewrite ?exported_frame, ?ensured_frame;
    try done; try congruence; auto.
Qed.

Lemma frame_cursor_after_export_witness :
  frame_current
    (fst (@export_action_to_slashblade_text recorded_host torso_only slash_combo
            slash_combo_path (world0 NoFault)))
  = frame_current (world0 NoFault).
Proof.
  set (run := @export_action_to_slashblade_text recorded_host torso_only slash_combo
                slash_combo_path (world0 NoFault)).
  assert (Hrun : run = (fst run, snd run)) by (by destruct run).
  assert (Hok : snd run = inr slash_combo_path) by (vm_compute; reflexivity).
  exact (proj1 (@frame_cursor_after_export recorded_host torso_only slash_combo
                  slash_combo_path (world0 NoFault) (fst run) (snd run) Hrun)
               slash_combo_path Hok).
Defined.

(** C3. The cursor is to be back at its original frame after a failed
    run too, and the code saves and restores it, but only on the path
    that completes: when opening the output file fails, the run aborts
    with the cursor on the last keyframe, frame 10, and not on frame 37
    where it stood. *)
Lemma frame_cursor_lost_on_io_error :
  let run := @export_action_to_slashblade_text recorded_host torso_only slash_combo
               slash_combo_path (world0 OpenFails) in
  snd run = inl OSError
  /\ frame_current (world0 OpenFails) = 37
  /\ frame_current (fst run) = 10
  /\ frame_current (fst run) <> frame_current (world0 OpenFails).
Proof. vm_compute. repeat split; discriminate. Qed.

(** ** Errors and the file system *)




(** ** Determinism *)

Lemma path_exists_set_file w p t d :
  path_exists w d = true -> path_exists (set_file w p t) d = true.
Proof.
  apply path_exists_more; simpl; [done|]. intros t' Ht.
  destruct (decide (p = d)) as [->|Hne].
  - rewrite lookup_insert_eq. eauto.
  - rewrite lookup_insert_ne by done. eauto.
Qed.

Lemma set_file_twice w p t f g :
  with_frame (set_file (with_frame (set_file w p t) f) p t) g
  = with_frame (set_file w p t) g.
Proof. unfold with_frame, set_file. simpl. by rewrite insert_insert_eq. Qed.

Lemma export_rerun `{Host} (arm_obj : Z -> Armature) action out_path w w' p :
  export_action_to_slashblade_text arm_obj action out_path w = (w', inr p) ->
  export_action_to_slashblade_text arm_obj action out_path w' = (w', inr p).
Proof.
  intros Hrun.
  destruct (export_success_inv _ _ _ _ _ _ Hrun)
    as (ks & angs & Hg & Hne & Hm & -> & ->).
  set (text := String.concat "" (document_lines (name action) ks angs)) in *.
  destruct (export_assembled_last _ _ out_path w _ _ Hg Hne Hm) as (f & Hlast & Hrun1).
  rewrite Hrun1 in Hrun. apply finish_export_outcome in Hrun. cbv zeta in Hrun.
  destruct Hrun as [(w1 & _ & _ & Hr)|[(_ & _ & Hr)|
                    [(room & _ & _ & _ & Hr)|(Hdir & Hw & _ & _)]]];
    try discriminate Hr.
  apply ensure_dir_ok in Hdir as [_ Hex]. fold text in Hw.
  destruct (export_assembled_last _ _ out_path (exported w out_path text) _ _ Hg Hne Hm)
    as (f' & Hlast' & ->).
  rewrite finish_export_ok.
  - f_equal. unfold exported. rewrite set_file_twice. by destruct (set_file _ _ _).
  - rewrite path_exists_with_frame. by apply path_exists_set_file.
  - change (io_fault (with_frame ?x _)) with (io_fault x). by rewrite exported_fault.
Qed.

(** C9. The text of the output depends on the clip and the rig only: two
    runs that complete, from whatever scene frame and file system, write
    the same bytes to the same path; and a second run started in the
    state the first one left reproduces that state and that result. *)
Theorem export_deterministic `{Host} (arm_obj : Z -> Armature)
    action out_path w1 w2 w1' w2' p1 p2 :
  export_action_to_slashblade_text arm_obj action out_path w1 = (w1', inr p1) ->
  export_action_to_slashblade_text arm_obj action out_path w2 = (w2', inr p2) ->
  p1 = p2
  /\ is_Some (files w1' !! out_path)
  /\ files w1' !! out_path = files w2' !! out_path
  /\ export_action_to_slashblade_text arm_obj action out_path w1' = (w1', inr p1).
Proof.
  intros Hrun1 Hrun2. pose proof (export_rerun _ _ _ _ _ _ Hrun1) as Hagain.
  destruct (export_success_inv _ _ _ _ _ _ Hrun1)
    as (ks & angs & Hg & Hne & Hm & -> & ->).
  destruct (export_success_inv _ _ _ _ _ _ Hrun2)
    as (ks2 & angs2 & Hg2 & _ & Hm2 & -> & ->).
  same_keyframes. rewrite !exported_files, !lookup_insert_eq.
  repeat split; eauto.
Qed.

Lemma export_deterministic_witness :
  let run1 := @export_action_to_slashblade_text recorded_host torso_only slash_combo
                slash_combo_path (world0 NoFault) in
  let run2 := @export_action_to_slashblade_text recorded_host torso_only slash_combo
                slash_combo_path world1 in
  slash_combo_path = slash_combo_path
  /\ is_Some (files (fst run1) !! slash_combo_path)
  /\ files (fst run1) !! slash_combo_path = files (fst run2) !! slash_combo_path
  /\ @export_action_to_slashblade_text recorded_host torso_only slash_combo
       slash_combo_path (fst run1) = (fst run1, inr slash_combo_path).
Proof.
  intros run1 run2.
  assert (H1 : run1 = (fst run1, inr slash_combo_path)) by (vm_compute; reflexivity).
  assert (H2 : run2 = (fst run2, inr slash_combo_path)) by (vm_compute; reflexivity).
  exact (@export_deterministic recorded_host torso_only slash_combo slash_combo_path
           (world0 NoFault) world1 (fst run1) (fst run2) _ _ H1 H2).
Defined.

(** ** Reading the document *)

Lemma document_lines_lookup clip_name ks angs k a j :
  Forall (fun a => length a = 9%nat) angs ->
  angs !! k = Some a -> (j < 13)%nat ->
  document_lines clip_name ks angs !! S (13 * k + j) = block_at ks k a !! j.
Proof.
  intros Hlen Hk Hj. unfold document_lines.
  change ((?x :: ?l) !! S ?n) with (l !! n).
  rewrite lookup_app_l.
  - by rewrite (blocks_from_lookup ks 0 angs k a j Hlen Hk Hj).
  - rewrite (blocks_from_length _ _ _ Hlen).
    apply lookup_lt_Some in Hk. lia.
Qed.

Lemma block_at_angle ks i a n x :
  a !! n = Some x -> block_at ks i a !! S n = Some (x +:+ "," +:+ LF).
Proof.
  intros Hn. unfold block_at.
  change ((?x :: ?l) !! S ?n) with (l !! n).
  rewrite lookup_app_l by (rewrite length_map; by eapply lookup_lt_Some).
  change (map ?f ?l) with (f <$> l). by rewrite list_lookup_fmap, Hn.
Qed.

Lemma block_at_tail ks i a :
  length a = 9%nat ->
  block_at ks i a !! 0%nat = Some ("{" +:+ LF)
  /\ block_at ks i a !! 10%nat = Some (py_str (hold_duration ks i) +:+ "," +:+ LF)
  /\ block_at ks i a !! 11%nat = Some ("true" +:+ LF)
  /\ block_at ks i a !! 12%nat
     = Some ((if bool_decide (S i = length ks) then "}" else "},") +:+ LF).
Proof.
  intros Hlen. do 10 (destruct a as [|? a]; try discriminate Hlen). done.
Qed.

Lemma angles_lookup `{Host} (arm_obj : Z -> Armature) ks angs i f :
  res_mapM (angles_at arm_obj) ks = inr angs -> ks !! i = Some f ->
  exists a, angles_at arm_obj f = inr a /\ angs !! i = Some a.
Proof. apply res_mapM_lookup. Qed.

Lemma hold_duration_next ks i f :
  ks !! i = Some f ->
  hold_duration ks i = match ks !! S i with Some g => g - f | None => 1 end.
Proof. intros Hi. unfold hold_duration. by rewrite Hi. Qed.

Lemma StronglySorted_lookup_lt (l : list Z) i j x y :
  StronglySorted Z.lt l -> l !! i = Some x -> l !! j = Some y -> (i < j)%nat -> x < y.
Proof.
  intros Hs. revert i j. induction Hs as [|a l Hs IH Ha]; intros i j Hi Hj Hij.
  - by rewrite lookup_nil in Hi.
  - destruct j as [|j]; [lia|]. destruct i as [|i]; simpl in *.
    + inversion Hi; subst. rewrite Forall_forall in Ha. apply Ha.
      by eapply list_elem_of_lookup_2.
    + eapply IH; eauto. lia.
Qed.

(** ** Hold durations *)

Lemma export_durations `{Host} (arm_obj : Z -> Armature) action out_path w w' p :
  export_action_to_slashblade_text arm_obj action out_path w = (w', inr p) ->
  exists ks angs,
    gather_action_keyframes action = inr ks
    /\ res_mapM (angles_at arm_obj) ks = inr angs
    /\ files w' !! out_path
       = Some (String.concat "" (document_lines (name action) ks angs))
    /\ forall i f, ks !! i = Some f ->
         let d := match ks !! S i with Some g => g - f | None => 1 end in
         frame_length ks i f = inr d
         /\ document_lines (name action) ks angs !! duration_index i
            = Some (py_str d +:+ "," +:+ LF).
Proof.
  intros Hrun.
  destruct (export_success_inv _ _ _ _ _ _ Hrun)
    as (ks & angs & Hg & Hne & Hm & -> & ->).
  exists ks, angs. split; [done|]. split; [done|]. split.
  { by rewrite exported_files, lookup_insert_eq. }
  intros i f Hi d. subst d. rewrite <- (hold_duration_next _ _ _ Hi).
  split; [by apply frame_length_ok|].
  destruct (angles_lookup _ _ _ _ _ Hm Hi) as (a & Ha & Hai).
  unfold duration_index.
  replace (11 + 13 * i)%nat with (S (13 * i + 10)) by lia.
  rewrite (document_lines_lookup _ _ _ _ _ _ (angles_all_length _ _ _ Hm) Hai)
    by lia.
  by apply block_at_tail, (angles_at_length arm_obj f).
Qed.

(** C5. In every document the export writes, block [i] carries the
    duration [frames[i+1] - frames[i]] when a next frame exists and [1]
    for the final block; for the frames 1, 5, 12 the code computes 4, 7
    and 1. *)
Theorem hold_duration_emitted `{Host} (arm_obj : Z -> Armature)
    action out_path w w' p :
  export_action_to_slashblade_text arm_obj action out_path w = (w', inr p) ->
  (exists ks angs,
     gather_action_keyframes action = inr ks
     /\ res_mapM (angles_at arm_obj) ks = inr angs
     /\ files w' !! out_path
        = Some (String.concat "" (document_lines (name action) ks angs))
     /\ forall i f, ks !! i = Some f ->
          let d := match ks !! S i with Some g => g - f | None => 1 end in
          frame_length ks i f = inr d
          /\ document_lines (name action) ks angs !! duration_index i
             = Some (py_str d +:+ "," +:+ LF))
  /\ frame_length [1; 5; 12] 0 1 = inr 4
  /\ frame_length [1; 5; 12] 1 5 = inr 7
  /\ frame_length [1; 5; 12] 2 12 = inr 1.
Proof.
  intros Hrun. split; [|done]. by eapply export_durations.
Qed.

Lemma hold_duration_emitted_witness :
  let run := @export_action_to_slashblade_text recorded_host torso_only three_keys
               "anim/draw.txt" (world0 NoFault) in
  (exists ks angs,
     gather_action_keyframes three_keys = inr ks
     /\ res_mapM (@angles_at recorded_host torso_only) ks = inr angs
     /\ files (fst run) !! "anim/draw.txt"
        = Some (String.concat "" (document_lines (name three_keys) ks angs))
     /\ forall i f, ks !! i = Some f ->
          let d := match ks !! S i with Some g => g - f | None => 1 end in
          frame_length ks i f = inr d
          /\ document_lines (name three_keys) ks angs !! duration_index i
             = Some (py_str d +:+ "," +:+ LF))
  /\ frame_length [1; 5; 12] 0 1 = inr 4
  /\ frame_length [1; 5; 12] 1 5 = inr 7
  /\ frame_length [1; 5; 12] 2 12 = inr 1.
Proof.
  intros run.
  assert (Hrun : run = (fst run, inr "anim/draw.txt")) by (vm_compute; reflexivity).
  exact (@hold_duration_emitted recorded_host torso_only three_keys "anim/draw.txt"
           (world0 NoFault) (fst run) _ Hrun).
Defined.

(** C10. Every hold duration in a document the export writes is an
    integer at least 1: the extracted frames increase strictly, so the
    differences are positive, and the final block carries 1. *)
Theorem hold_duration_positive `{Host} (arm_obj : Z -> Armature)
    action out_path w w' p :
  export_action_to_slashblade_text arm_obj action out_path w = (w', inr p) ->
  exists ks angs,
    gather_action_keyframes action = inr ks
    /\ StronglySorted Z.lt ks
    /\ res_mapM (angles_at arm_obj) ks = inr angs
    /\ files w' !! out_path
       = Some (String.concat "" (document_lines (name action) ks angs))
    /\ forall i f, ks !! i = Some f ->
         exists d, frame_length ks i f = inr d
           /\ 1 <= d
           /\ document_lines (name action) ks angs !! duration_index i
              = Some (py_str d +:+ "," +:+ LF).
Proof.
  intros Hrun.
  destruct (export_durations _ _ _ _ _ _ Hrun)
    as (ks & angs & Hg & Hm & Hfile & Hdur).
  exists ks, angs. pose proof (gather_sorted _ _ Hg) as Hsorted.
  repeat split; try done.
  intros i f Hi. destruct (Hdur i f Hi) as [Hlen Hline].
  eexists. split; [exact Hlen|]. split; [|exact Hline].
  destruct (ks !! S i) as [g|] eqn:Hnext; [|lia].
  pose proof (StronglySorted_lookup_lt ks i (S i) f g Hsorted Hi Hnext). lia.
Qed.

Lemma hold_duration_positive_witness :
  let run := @export_action_to_slashblade_text recorded_host torso_only three_keys
               "anim/draw.txt" (world0 NoFault) in
  exists ks angs,
    gather_action_keyframes three_keys = inr ks
    /\ StronglySorted Z.lt ks
    /\ res_mapM (@angles_at recorded_host torso_only) ks = inr angs
    /\ files (fst run) !! "anim/draw.txt"
       = Some (String.concat "" (document_lines (name three_keys) ks angs))
    /\ forall i f, ks !! i = Some f ->
         exists d, frame_length ks i f = inr d
           /\ 1 <= d
           /\ document_lines (name three_keys) ks angs !! duration_index i
              = Some (py_str d +:+ "," +:+ LF).
Proof.
  intros run.
  assert (Hrun : run = (fst run, inr "anim/draw.txt")) by (vm_compute; reflexivity).
  exact (@hold_duration_positive recorded_host torso_only three_keys "anim/draw.txt"
           (world0 NoFault) (fst run) _ Hrun).
Defined.

(** ** Bone order *)

Lemma bones_lookup_Some `{Host} (bones : list (string * PoseBone)) key pb :
  NoDup bones.*1 -> bones_lookup bones key = Some pb <-> (key, pb) ∈ bones.
Proof.
  induction bones as [|[k b] bones IH]; simpl; intros Hnd.
  - split; [done|]. by intros ?%elem_of_nil.
  - apply NoDup_cons in Hnd as [Hk Hnd]. rewrite elem_of_cons.
    destruct (String.eqb k key) eqn:Hkey.
    + apply String.eqb_eq in Hkey as ->. split.
      * intros [= ->]. by left.
      * intros [[= ->]|Hin]; [done|]. exfalso. apply Hk.
        apply list_elem_of_fmap. by exists (key, pb).
    + apply String.eqb_neq in Hkey. rewrite (IH Hnd). split; [by right|].
      intros [[= -> ->]|Hin]; [done|done].
Qed.

Lemma bones_lookup_perm `{Host} (bones bones' : list (string * PoseBone)) key :
  NoDup bones.*1 -> bones' ≡ₚ bones ->
  bones_lookup bones' key = bones_lookup bones key.
Proof.
  intros Hnd Hperm.
  assert (Hnd' : NoDup bones'.*1) by (by rewrite Hperm).
  destruct (bones_lookup bones key) as [pb|] eqn:Hl.
  - apply bones_lookup_Some; [done|]. rewrite Hperm. by apply bones_lookup_Some.
  - destruct (bones_lookup bones' key) as [pb'|] eqn:Hl'; [|done].
    apply bones_lookup_Some in Hl'; [|done]. rewrite Hperm in Hl'.
    apply bones_lookup_Some in Hl'; [|done]. congruence.
Qed.

Lemma pose_bone_world `{Host} (arm arm' : Armature) pb :
  matrix_world arm' = matrix_world arm ->
  pose_bone_relative_euler_degrees arm' pb = pose_bone_relative_euler_degrees arm pb.
Proof. intros Hw. unfold pose_bone_relative_euler_degrees. by rewrite Hw. Qed.

Lemma angle_line_perm `{Host} (arm arm' : Armature) bone_name :
  matrix_world arm' = matrix_world arm ->
  NoDup (pose_bones arm).*1 ->
  pose_bones arm' ≡ₚ pose_bones arm ->
  angle_line arm' bone_name = angle_line arm bone_name.
Proof.
  intros Hw Hnd Hperm. unfold angle_line.
  rewrite (bones_lookup_perm _ _ _ Hnd Hperm).
  destruct (bones_lookup _ _); [|done]. by rewrite (pose_bone_world _ _ _ Hw).
Qed.

Lemma export_loop_ext `{Host} (arm_obj arm_obj' : Z -> Armature) ks rest :
  (forall f, angles_at arm_obj' f = angles_at arm_obj f) ->
  forall i lines w,
    export_loop arm_obj' ks i rest lines w = export_loop arm_obj ks i rest lines w.
Proof.
  intros Hext. induction rest as [|f rest IH]; intros i lines w; [done|].
  cbn [export_loop]. unfold bind, frame_set, lift, read_armature.
  destruct (frame_length ks i f) as [e|d]; [done|].
  change (res_mapM (angle_line (arm_obj' (frame_current (with_frame w f)))) BONE_ORDER)
    with (angles_at arm_obj' f).
  change (res_mapM (angle_line (arm_obj (frame_current (with_frame w f)))) BONE_ORDER)
    with (angles_at arm_obj f).
  rewrite Hext. destruct (angles_at arm_obj f); [done|]. apply IH.
Qed.

Lemma export_ext `{Host} (arm_obj arm_obj' : Z -> Armature) action out_path w :
  (forall f, angles_at arm_obj' f = angles_at arm_obj f) ->
  export_action_to_slashblade_text arm_obj' action out_path w
  = export_action_to_slashblade_text arm_obj action out_path w.
Proof.
  intros Hext. unfold export_action_to_slashblade_text, bind, lift, get_frame.
  destruct (gather_action_keyframes action) as [e|[|k0 ks']]; [done|done|].
  by rewrite (export_loop_ext arm_obj arm_obj' _ _ Hext).
Qed.

Lemma export_angles `{Host} (arm_obj : Z -> Armature) action out_path w w' p :
  export_action_to_slashblade_text arm_obj action out_path w = (w', inr p) ->
  exists ks angs,
    gather_action_keyframes action = inr ks
    /\ res_mapM (angles_at arm_obj) ks = inr angs
    /\ files w' !! out_path
       = Some (String.concat "" (document_lines (name action) ks angs))
    /\ forall i f n bone_name,
         ks !! i = Some f -> BONE_ORDER !! n = Some bone_name ->
         exists entry,
           angle_line (arm_obj f) bone_name = inr entry
           /\ document_lines (name action) ks angs !! angle_index i n
              = Some (entry +:+ "," +:+ LF).
Proof.
  intros Hrun.
  destruct (export_success_inv _ _ _ _ _ _ Hrun)
    as (ks & angs & Hg & Hne & Hm & -> & ->).
  exists ks, angs. split; [done|]. split; [done|]. split.
  { by rewrite exported_files, lookup_insert_eq. }
  intros i f n bone_name Hi Hn.
  destruct (angles_lookup _ _ _ _ _ Hm Hi) as (a & Ha & Hai).
  destruct (res_mapM_lookup _ _ _ _ _ Ha Hn) as (entry & Hentry & Han).
  exists entry. split; [done|].
  assert (n < 9)%nat by (by apply lookup_lt_Some in Hn).
  unfold angle_index.
  replace (2 + 13 * i + n)%nat with (S (13 * i + S n)) by lia.
  rewrite (document_lines_lookup _ _ _ _ _ _ (angles_all_length _ _ _ Hm) Hai)
    by lia.
  by apply block_at_angle.
Qed.

Lemma bones_lookup_None `{Host} (bones : list (string * PoseBone)) key :
  key ∉ bones.*1 -> bones_lookup bones key = None.
Proof.
  induction bones as [|[k b] bones IH]; simpl; intros Hnot; [done|].
  rewrite not_elem_of_cons in Hnot. destruct Hnot as [Hne Hnot].
  destruct (String.eqb k key) eqn:Hkey; [|by apply IH].
  apply String.eqb_eq in Hkey. congruence.
Qed.

Lemma angle_line_cases `{Host} (arm : Armature) bone_name entry :
  angle_line arm bone_name = inr entry ->
  match bones_lookup (pose_bones arm) bone_name with
  | None => entry = "Angle(0,0,0)"
  | Some pb =>
      exists dx dy dz,
        pose_bone_relative_euler_degrees arm pb = inr (dx, dy, dz)
        /\ entry = "Angle(" +:+ format_6f dx +:+ "," +:+ format_6f dy +:+ ","
                     +:+ format_6f dz +:+ ")"
  end.
Proof.
  unfold angle_line. destruct (bones_lookup _ _) as [pb|]; [|by intros [= <-]].
  intros Hline. apply res_bind_inr in Hline as ([[dx dy] dz] & Hdeg & Hline).
  inversion Hline; subst. by exists dx, dy, dz.
Qed.

(** C7. In every block of every document the export writes, the [n]-th
    angle entry belongs to the [n]-th name of the fixed [BONE_ORDER]: if
    the rig has a bone of that name, wherever it is declared, the entry
    is the formatted orientation of that very bone at the block's frame,
    and if it has none the entry is [Angle(0,0,0)]. Declaring the bones
    of the rig in another order changes nothing of the run. *)
Theorem bone_order_fidelity `{Host} (arm_obj arm_obj' : Z -> Armature)
    action out_path w w' p :
  (forall f, matrix_world (arm_obj' f) = matrix_world (arm_obj f)
             /\ NoDup (pose_bones (arm_obj f)).*1
             /\ pose_bones (arm_obj' f) ≡ₚ pose_bones (arm_obj f)) ->
  export_action_to_slashblade_text arm_obj action out_path w = (w', inr p) ->
  BONE_ORDER = [ "Torso"; "UpperArm_Left"; "ForeArm_Left"; "Hand_Left";
                 "Hand_Flipped_Left"; "UpperArm_Right"; "ForeArm_Right";
                 "Hand_Right"; "Sword" ]
  /\ (exists ks angs,
        gather_action_keyframes action = inr ks
        /\ res_mapM (angles_at arm_obj) ks = inr angs
        /\ files w' !! out_path
           = Some (String.concat "" (document_lines (name action) ks angs))
        /\ forall i f n bone_name,
             ks !! i = Some f -> BONE_ORDER !! n = Some bone_name ->
             (forall pb, (bone_name, pb) ∈ pose_bones (arm_obj' f) ->
                (bone_name, pb) ∈ pose_bones (arm_obj f)
                /\ exists dx dy dz,
                     pose_bone_relative_euler_degrees (arm_obj f) pb = inr (dx, dy, dz)
                     /\ document_lines (name action) ks angs !! angle_index i n
                        = Some (("Angle(" +:+ format_6f dx +:+ "," +:+ format_6f dy
                                   +:+ "," +:+ format_6f dz +:+ ")") +:+ "," +:+ LF))
             /\ (bone_name ∉ (pose_bones (arm_obj' f)).*1 ->
                   document_lines (name action) ks angs !! angle_index i n
                   = Some ("Angle(0,0,0)" +:+ "," +:+ LF)))
  /\ export_action_to_slashblade_text arm_obj' action out_path w = (w', inr p).
Proof.
  intros Hrig Hrun. split; [done|]. split.
  - destruct (export_angles _ _ _ _ _ _ Hrun) as (ks & angs & Hg & Hm & Hfile & Hent).
    exists ks, angs. split; [done|]. split; [done|]. split; [done|].
    intros i f n bone_name Hi Hn.
    destruct (Hrig f) as (_ & Hnd & Hperm).
    destruct (Hent i f n bone_name Hi Hn) as (entry & Hline & Hdoc).
    apply angle_line_cases in Hline. split.
    + intros pb Hpb. rewrite Hperm in Hpb. split; [done|].
      apply (bones_lookup_Some _ _ _ Hnd) in Hpb. rewrite Hpb in Hline.
      destruct Hline as (dx & dy & dz & Hdeg & ->). by exists dx, dy, dz.
    + intros Hnot. rewrite Hperm in Hnot.
      rewrite (bones_lookup_None _ _ Hnot) in Hline. by subst entry.
  - rewrite <- Hrun. apply export_ext. intros f.
    destruct (Hrig f) as (Hw & Hnd & Hperm).
    apply res_mapM_ext. intros bone_name _. by apply angle_line_perm.
Qed.

Lemma bone_order_fidelity_witness :
  let run := @export_action_to_slashblade_text recorded_host rig_a slash_combo
               slash_combo_path (world0 NoFault) in
  BONE_ORDER = [ "Torso"; "UpperArm_Left"; "ForeArm_Left"; "Hand_Left";
                 "Hand_Flipped_Left"; "UpperArm_Right"; "ForeArm_Right";
                 "Hand_Right"; "Sword" ]
  /\ (exists ks angs,
        gather_action_keyframes slash_combo = inr ks
        /\ res_mapM (@angles_at recorded_host rig_a) ks = inr angs
        /\ files (fst run) !! slash_combo_path
           = Some (String.concat "" (document_lines (name slash_combo) ks angs))
        /\ forall i f n bone_name,
             ks !! i = Some f -> BONE_ORDER !! n = Some bone_name ->
             (forall pb, (bone_name, pb) ∈ @pose_bones recorded_host (rig_b f) ->
                (bone_name, pb) ∈ @pose_bones recorded_host (rig_a f)
                /\ exists dx dy dz,
                     pose_bone_relative_euler_degrees (rig_a f) pb = inr (dx, dy, dz)
                     /\ document_lines (name slash_combo) ks angs !! angle_index i n
                        = Some (("Angle(" +:+ format_6f dx +:+ "," +:+ format_6f dy
                                   +:+ "," +:+ format_6f dz +:+ ")") +:+ "," +:+ LF))
             /\ (bone_name ∉ (@pose_bones recorded_host (rig_b f)).*1 ->
                   document_lines (name slash_combo) ks angs !! angle_index i n
                   = Some ("Angle(0,0,0)" +:+ "," +:+ LF)))
  /\ @export_action_to_slashblade_text recorded_host rig_b slash_combo
       slash_combo_path (world0 NoFault) = (fst run, inr slash_combo_path).
Proof.
  intros run.
  assert (Hrun : run = (fst run, inr slash_combo_path)) by (vm_compute; reflexivity).
  assert (Hrig : forall f : Z,
             @matrix_world recorded_host (rig_b f) = @matrix_world recorded_host (rig_a f)
             /\ NoDup (@pose_bones recorded_host (rig_a f)).*1
             /\ @pose_bones recorded_host (rig_b f) ≡ₚ @pose_bones recorded_host (rig_a f)).
  { intros f. split; [reflexivity|]. split.
    - apply (bool_decide_unpack _). vm_compute. exact I.
    - apply perm_swap. }
  exact (@bone_order_fidelity recorded_host rig_a rig_b slash_combo slash_combo_path
           (world0 NoFault) (fst run) _ Hrig Hrun).
Defined.

(** ** Number formatting *)

Lemma digit_char_is_digit d : 0 <= d < 10 -> is_digit (digit_char d) = true.
Proof.
  intros Hd.
  assert (d = 0 \/ d = 1 \/ d = 2 \/ d = 3 \/ d = 4 \/ d = 5 \/ d = 6 \/ d = 7
          \/ d = 8 \/ d = 9) as Hcases by lia.
  repeat (destruct Hcases as [->|Hcases]; [reflexivity|]). by subst.
Qed.

Lemma frac6_length n : String.length (frac6 n) = 6%nat.
Proof. done. Qed.

Lemma frac6_digits n : all_digits (frac6 n) = true.
Proof.
  unfold frac6. cbn [all_digits].
  rewrite !digit_char_is_digit; [done|apply Z.mod_pos_bound; lia..].
Qed.

Lemma string_of_uint_digits u : all_digits (NilEmpty.string_of_uint u) = true.
Proof. induction u; simpl; auto. Qed.

Lemma py_str_nonneg k :
  0 <= k ->
  exists c s, py_str k = String c s /\ is_digit c = true /\ all_digits s = true.
Proof.
  intros Hk. unfold py_str. destruct k as [|q|q]; [| |lia].
  - by exists "0"%char, "".
  - simpl. pose proof (Unsigned.to_uint_nonnil q) as Hnn.
    pose proof (string_of_uint_digits (Pos.to_uint q)) as Hd.
    unfold NilZero.string_of_uint.
    destruct (Pos.to_uint q) eqn:Hu; [done|..]; simpl in *; eauto.
Qed.

Lemma digit_not_point c : is_digit c = true -> Ascii.eqb c "." = false.
Proof. destruct c as [[] [] [] [] [] [] [] []]; by try discriminate. Qed.

Lemma fixed6_unsigned_digits ds fr seen :
  all_digits ds = true -> (ds <> "" \/ seen = true) ->
  String.length fr = 6%nat -> all_digits fr = true ->
  fixed6_unsigned (ds +:+ "." +:+ fr) seen = true.
Proof.
  intros Hds Hne Hlen Hfr. revert seen Hne.
  induction ds as [|c ds IH]; intros seen Hne.
  - destruct Hne as [Hne| ->]; [done|].
    change (true && (String.length fr =? 6)%nat && all_digits fr = true).
    by rewrite Hlen, Hfr.
  - simpl in Hds. apply andb_true_iff in Hds as [Hc Hds].
    change ((if Ascii.eqb c "."
             then seen && (String.length (ds +:+ "." +:+ fr) =? 6)%nat
                  && all_digits (ds +:+ "." +:+ fr)
             else is_digit c && fixed6_unsigned (ds +:+ "." +:+ fr) true) = true).
    rewrite (digit_not_point _ Hc), Hc. apply IH; auto.
Qed.

Lemma fixed6_signed s c ds fr :
  is_digit c = true -> all_digits ds = true ->
  String.length fr = 6%nat -> all_digits fr = true ->
  fixed6 (sign_str s +:+ String c ds +:+ "." +:+ fr) = true.
Proof.
  intros Hc Hds Hlen Hfr.
  assert (Hbody : fixed6_unsigned (String c ds +:+ "." +:+ fr) false = true).
  { apply fixed6_unsigned_digits; auto. simpl. by rewrite Hc. }
  destruct s; [exact Hbody|].
  change (sign_str false +:+ ?x) with x.
  destruct c as [[] [] [] [] [] [] [] []]; try discriminate Hc; exact Hbody.
Qed.

Lemma round_half_even_pos_nonneg m e : 0 <= round_half_even_pos m e.
Proof.
  unfold round_half_even_pos. destruct e as [|q|q].
  - lia.
  - assert (0 < 2 ^ Z.pos q) by (apply Z.pow_pos_nonneg; lia). lia.
  - assert (0 < 2 ^ Z.pos q) by (apply Z.pow_pos_nonneg; lia).
    assert (0 <= Z.pos m / 2 ^ Z.pos q) by (apply Z.div_pos; lia).
    destruct (2 * (Z.pos m mod 2 ^ Z.pos q) ?= 2 ^ Z.pos q)%Z;
      [destruct (Z.even _)|..]; lia.
Qed.

Lemma format_6f_fixed6 x : is_finite x = true -> fixed6 (format_6f x) = true.
Proof.
  destruct x as [s|s| |s m e]; try discriminate; intros _.
  - by destruct s.
  - unfold format_6f.
    set (n := round_half_even_pos (m * 1000000) e).
    assert (0 <= n / 1000000) as Hq
      by (apply Z.div_pos; [apply round_half_even_pos_nonneg|lia]).
    destruct (py_str_nonneg _ Hq) as (c & ds & -> & Hc & Hds).
    apply fixed6_signed; auto using frac6_digits.
Qed.

(** ** Angle entries *)

(** C2, as the code has it. In every document the export writes, the
    entry of a bone that exists in the rig is [Angle(x,y,z)] with each
    finite angle printed as a signed decimal with exactly six digits
    after the point; the entry of a [BONE_ORDER] name absent from the rig
    is the literal text [Angle(0,0,0)]. *)
Theorem angle_entry_format `{Host} (arm_obj : Z -> Armature)
    action out_path w w' p :
  export_action_to_slashblade_text arm_obj action out_path w = (w', inr p) ->
  exists ks angs,
    gather_action_keyframes action = inr ks
    /\ res_mapM (angles_at arm_obj) ks = inr angs
    /\ files w' !! out_path
       = Some (String.concat "" (document_lines (name action) ks angs))
    /\ forall i f n bone_name,
         ks !! i = Some f -> BONE_ORDER !! n = Some bone_name ->
         match bones_lookup (pose_bones (arm_obj f)) bone_name with
         | None =>
             document_lines (name action) ks angs !! angle_index i n
             = Some ("Angle(0,0,0)" +:+ "," +:+ LF)
         | Some pb =>
             exists dx dy dz,
               pose_bone_relative_euler_degrees (arm_obj f) pb = inr (dx, dy, dz)
               /\ document_lines (name action) ks angs !! angle_index i n
                  = Some (("Angle(" +:+ format_6f dx +:+ "," +:+ format_6f dy +:+ ","
                             +:+ format_6f dz +:+ ")") +:+ "," +:+ LF)
               /\ (finite_triple (dx, dy, dz) = true ->
                     fixed6 (format_6f dx) = true
                     /\ fixed6 (format_6f dy) = true
                     /\ fixed6 (format_6f dz) = true)
         end.
Proof.
  intros Hrun.
  destruct (export_angles _ _ _ _ _ _ Hrun)
    as (ks & angs & Hg & Hm & Hfile & Hent).
  exists ks, angs. split; [done|]. split; [done|]. split; [done|].
  intros i f n bone_name Hi Hn.
  destruct (Hent i f n bone_name Hi Hn) as (entry & Hline & Hdoc).
  apply angle_line_cases in Hline.
  destruct (bones_lookup _ _) as [pb|].
  - destruct Hline as (dx & dy & dz & Hdeg & ->).
    exists dx, dy, dz. split; [done|]. split; [done|].
    unfold finite_triple. intros Hfin.
    apply andb_true_iff in Hfin as [Hfin Hz].
    apply andb_true_iff in Hfin as [Hx Hy].
    auto using format_6f_fixed6.
  - by subst entry.
Qed.

Lemma angle_entry_format_witness :
  let run := @export_action_to_slashblade_text recorded_host rig_a slash_combo
               slash_combo_path (world0 NoFault) in
  exists ks angs,
    gather_action_keyframes slash_combo = inr ks
    /\ res_mapM (@angles_at recorded_host rig_a) ks = inr angs
    /\ files (fst run) !! slash_combo_path
       = Some (String.concat "" (document_lines (name slash_combo) ks angs))
    /\ forall i f n bone_name,
         ks !! i = Some f -> BONE_ORDER !! n = Some bone_name ->
         match bones_lookup (@pose_bones recorded_host (rig_a f)) bone_name with
         | None =>
             document_lines (name slash_combo) ks angs !! angle_index i n
             = Some ("Angle(0,0,0)" +:+ "," +:+ LF)
         | Some pb =>
             exists dx dy dz,
               pose_bone_relative_euler_degrees (rig_a f) pb = inr (dx, dy, dz)
               /\ document_lines (name slash_combo) ks angs !! angle_index i n
                  = Some (("Angle(" +:+ format_6f dx +:+ "," +:+ format_6f dy +:+ ","
                             +:+ format_6f dz +:+ ")") +:+ "," +:+ LF)
               /\ (finite_triple (dx, dy, dz) = true ->
                     fixed6 (format_6f dx) = true
                     /\ fixed6 (format_6f dy) = true
                     /\ fixed6 (format_6f dz) = true)
         end.
Proof.
  intros run.
  assert (Hrun : run = (fst run, inr slash_combo_path)) by (vm_compute; reflexivity).
  exact (@angle_entry_format recorded_host rig_a slash_combo slash_combo_path
           (world0 NoFault) (fst run) _ Hrun).
Defined.

(** C2 fails as stated: with a rig that has no ["Sword"] bone the Sword
    slot of the first block holds [Angle(0,0,0)], whose fields have no
    fractional digits, and not [Angle(0.000000,0.000000,0.000000)]. *)
Lemma missing_bone_entry_unformatted :
  let run := @export_action_to_slashblade_text recorded_host torso_only slash_combo
               slash_combo_path (world0 NoFault) in
  let zeros := "Angle(0,0,0)" in
  let torso := "Angle(-90.000003,0.000000,0.000000)" in
  let angles := [torso; zeros; zeros; zeros; zeros; zeros; zeros; zeros; zeros] in
  let lines := document_lines "Slash Combo 1" [0; 10] [angles; angles] in
  snd run = inr slash_combo_path
  /\ bones_lookup (@pose_bones recorded_host (torso_only 0)) "Sword" = None
  /\ BONE_ORDER !! 8%nat = Some "Sword"
  /\ files (fst run) !! slash_combo_path = Some (String.concat "" lines)
  /\ lines !! angle_index 0 8 = Some ("Angle(0,0,0)" +:+ "," +:+ LF)
  /\ lines !! angle_index 0 8
     <> Some ("Angle(0.000000,0.000000,0.000000)" +:+ "," +:+ LF)
  /\ fixed6 "0" = false.
Proof. vm_compute. repeat split; discriminate. Qed.

(** ** Orientation rule *)

(** C1, as the code has it. A bone with a parent (whose transform can be
    inverted) yields, in degrees, the XYZ Euler angles of the parent's
    inverse composed with the bone's own transform, with no offset. A
    bone without parent yields, in degrees, the XYZ Euler angles of the
    armature's world transform composed with the bone's transform, the X
    angle being [degrees(single(x - radians(90.0)))]: [radians(90.0)] is
    subtracted from the X angle in radians, the difference is stored in
    the Euler, which rounds it to single precision, and the stored value
    is converted to degrees. Y and Z carry no offset. The amount
    subtracted is [radians(90.0)], which [degrees] maps back to 90.0. *)
Theorem pose_bone_relative_euler_degrees_spec `{Host} (arm_obj : Armature)
    (pb : PoseBone) :
  (forall p pinv,
     parent pb = Some p -> inverted (matrix p) = Some pinv ->
     let e := to_euler_XYZ (matmul pinv (matrix pb)) in
     pose_bone_relative_euler_degrees arm_obj pb
     = inr (degrees (euler_x e), degrees (euler_y e), degrees (euler_z e)))
  /\ (parent pb = None ->
      let e := to_euler_XYZ (matmul (matrix_world arm_obj) (matrix pb)) in
      pose_bone_relative_euler_degrees arm_obj pb
      = inr (degrees (to_single (fsub (euler_x e) (radians ninety))),
             degrees (euler_y e), degrees (euler_z e)))
  /\ ninety = of_Z 90
  /\ degrees (radians ninety) = ninety.
Proof.
  unfold pose_bone_relative_euler_degrees. repeat split.
  - intros p pinv Hp Hinv. by rewrite Hp, Hinv.
  - intros Hp. by rewrite Hp.
Qed.

Lemma pose_bone_relative_euler_degrees_spec_witness :
  @pose_bone_relative_euler_degrees recorded_host (rig_a 0) upper_arm
  = inr (degrees (of_Z 1), degrees fzero, degrees (of_Z (-1)))
  /\ @pose_bone_relative_euler_degrees recorded_host (rig_a 0) torso_bone
     = inr (degrees (to_single (fsub (of_Z 1) (radians ninety))),
            degrees fzero, degrees fzero).
Proof.
  split.
  - exact (proj1 (@pose_bone_relative_euler_degrees_spec recorded_host (rig_a 0) upper_arm)
             (@mkPoseBone recorded_host None rest_euler) rest_euler eq_refl eq_refl).
  - exact (proj1 (proj2 (@pose_bone_relative_euler_degrees_spec recorded_host
                           (rig_a 0) torso_bone)) eq_refl).
Defined.

(** C1 fails as stated where it says that the X angle in degrees has
    exactly 90 subtracted. For a root bone at rest, whose world X angle
    is 0, the X angle in degrees minus 90.0 is -90 and prints as
    [-90.000000]; the code emits [-90.000003]. The difference
    [0 - radians(90.0)] is stored in single precision, as
    [-13176795 * 2^-23], and that value is about -90.0000025 degrees.
    Without the store, subtracting before converting would still print
    [-90.000000]. *)
Lemma root_offset_not_exact :
  let pb := @mkPoseBone recorded_host None rest_euler in
  let e := @to_euler_XYZ recorded_host
             (@matmul recorded_host (matrix_world (torso_only 0)) (matrix pb)) in
  let claimed := (fsub (degrees (euler_x e)) ninety,
                  degrees (euler_y e), degrees (euler_z e)) in
  parent pb = None
  /\ euler_x e = fzero
  /\ pose_bone_relative_euler_degrees (torso_only 0) pb <> inr claimed
  /\ res_bind (pose_bone_relative_euler_degrees (torso_only 0) pb)
       (fun degs => inr (vec_to_angle_str degs))
     = inr "Angle(-90.000003,0.000000,0.000000)"
  /\ vec_to_angle_str claimed = "Angle(-90.000000,0.000000,0.000000)"
  /\ to_single (fsub (euler_x e) (radians ninety)) = S754_finite true 13176795 (-23)
  /\ format_6f (degrees (fsub (euler_x e) (radians ninety))) = "-90.000000".
Proof. vm_compute. repeat split. discriminate. Qed.

(** ** The document *)

Lemma vec_to_angle_str_entry t : is_angle_entry (vec_to_angle_str t) = true.
Proof. destruct t as [[dx dy] dz]. reflexivity. Qed.

Lemma angle_line_entry `{Host} (arm : Armature) bone_name entry :
  angle_line arm bone_name = inr entry -> is_angle_entry entry = true.
Proof.
  unfold angle_line. destruct (bones_lookup _ _) as [pb|]; [|by intros [= <-]].
  intros Hline. apply res_bind_inr in Hline as (t & _ & Hline).
  inversion Hline; subst. apply vec_to_angle_str_entry.
Qed.

Lemma angles_at_entries `{Host} (arm_obj : Z -> Armature) f a :
  angles_at arm_obj f = inr a ->
  length a = 9%nat /\ Forall (fun e => is_angle_entry e = true) a.
Proof.
  intros Ha. split; [by eapply angles_at_length|].
  apply Forall_lookup_2. intros n entry Hn.
  unfold angles_at in Ha. revert a Ha n Hn.
  generalize BONE_ORDER. intros names.
  induction names as [|b names IH]; simpl; intros a Ha n Hn.
  - inversion Ha; subst. by rewrite lookup_nil in Hn.
  - apply res_bind_inr in Ha as (e0 & He0 & Ha).
    apply res_bind_inr in Ha as (a' & Ha' & Ha). inversion Ha; subst.
    destruct n as [|n]; simpl in Hn.
    + inversion Hn; subst. by eapply angle_line_entry.
    + by eapply IH.
Qed.

Lemma angles_all_entries `{Host} (arm_obj : Z -> Armature) ks angs :
  res_mapM (angles_at arm_obj) ks = inr angs ->
  length angs = length ks
  /\ Forall (fun a => length a = 9%nat
                      /\ Forall (fun e => is_angle_entry e = true) a) angs.
Proof.
  intros Hm. split; [by eapply res_mapM_length|].
  apply Forall_lookup_2. intros i a Hi.
  assert (exists f, ks !! i = Some f) as [f Hf].
  { apply lookup_lt_is_Some_2. rewrite <- (res_mapM_length _ _ _ Hm).
    by eapply lookup_lt_Some. }
  destruct (angles_lookup _ _ _ _ _ Hm Hf) as (a' & Ha' & Hi').
  assert (a' = a) as -> by congruence. by eapply angles_at_entries.
Qed.

Lemma torso_only_angles `{Host} (arm : Armature) m :
  pose_bones arm = [("Torso", mkPoseBone None m)] ->
  exists d,
    pose_bone_relative_euler_degrees arm (mkPoseBone None m) = inr d
    /\ res_mapM (angle_line arm) BONE_ORDER
       = inr [vec_to_angle_str d; "Angle(0,0,0)"; "Angle(0,0,0)"; "Angle(0,0,0)";
              "Angle(0,0,0)"; "Angle(0,0,0)"; "Angle(0,0,0)"; "Angle(0,0,0)";
              "Angle(0,0,0)"].
Proof.
  intros Hbones.
  destruct (pose_bone_relative_euler_degrees arm (mkPoseBone None m)) as [e|d] eqn:Hd.
  { unfold pose_bone_relative_euler_degrees in Hd. simpl in Hd. discriminate. }
  exists d. split; [done|].
  unfold BONE_ORDER. cbn [res_mapM]. unfold angle_line. rewrite Hbones.
  cbn [bones_lookup]. rewrite String.eqb_refl, Hd. reflexivity.
Qed.

Lemma ascii_text_app a b : ascii_text (a +:+ b) = ascii_text a && ascii_text b.
Proof.
  unfold ascii_text. induction a as [|c a IH]; [done|].
  change (String c a +:+ b) with (String c (a +:+ b)). cbn [str_forall].
  by rewrite IH, andb_assoc.
Qed.

Lemma ascii_text_map f s :
  (forall c, (nat_of_ascii c <? 128)%nat = true -> (nat_of_ascii (f c) <? 128)%nat = true) ->
  ascii_text s = true -> ascii_text (str_map f s) = true.
Proof.
  intros Hf. unfold ascii_text. induction s as [|c s IH]; [done|].
  cbn [str_forall str_map]. intros [Hc Hs]%andb_true_iff.
  by rewrite (Hf _ Hc), (IH Hs).
Qed.

Lemma ascii_lower_ascii c :
  (nat_of_ascii c <? 128)%nat = true -> (nat_of_ascii (ascii_lower c) <? 128)%nat = true.
Proof. destruct c as [[] [] [] [] [] [] [] []]; by vm_compute. Qed.

Lemma ascii_upper_ascii c :
  (nat_of_ascii c <? 128)%nat = true -> (nat_of_ascii (ascii_upper c) <? 128)%nat = true.
Proof. destruct c as [[] [] [] [] [] [] [] []]; by vm_compute. Qed.

Lemma underscore_ascii c :
  (nat_of_ascii c <? 128)%nat = true ->
  (nat_of_ascii (if Ascii.eqb c " " then "_"%char else c) <? 128)%nat = true.
Proof. destruct c as [[] [] [] [] [] [] [] []]; by vm_compute. Qed.

Lemma lower_name_ascii s :
  ascii_text s = true -> ascii_text (str_replace " " "_" (str_lower s)) = true.
Proof.
  intros Hs. apply ascii_text_map; [apply underscore_ascii|].
  by apply ascii_text_map; [apply ascii_lower_ascii|].
Qed.

Lemma upper_name_ascii s :
  ascii_text s = true -> ascii_text (str_replace " " "_" (str_upper s)) = true.
Proof.
  intros Hs. apply ascii_text_map; [apply underscore_ascii|].
  by apply ascii_text_map; [apply ascii_upper_ascii|].
Qed.

(** C8, for a clip whose name is ASCII text. Every document the export
    writes is the header
    [--@name slashblade_project/anim/<name lower-cased, underscored>]
    and [<NAME upper-cased, underscored>={], itself ASCII text, then one
    block per extracted frame, each with nine [Angle(...)] entries, the
    hold duration and [true] as its last element, closed by [},] for
    every block but the last and by [}] for the last, then [}]. For a
    clip named "Slash Combo 1" with keyframes 0 and 10 and a rig whose
    only bone is "Torso", the export assembles the document
    [slash_combo_lines], two blocks of nine entries with durations 10
    then 1 and [true] in both, the first entry of each block being the
    orientation of the Torso at that frame; it hands these lines to the
    file output with the cursor on frame 10, and a run that completes
    has written them to the output path. *)
Theorem document_format `{Host} (arm_obj : Z -> Armature) action out_path :
  ascii_text (name action) = true ->
  (forall w w' p,
     export_action_to_slashblade_text arm_obj action out_path w = (w', inr p) ->
     exists ks angs,
       gather_action_keyframes action = inr ks /\ ks <> []
       /\ res_mapM (angles_at arm_obj) ks = inr angs
       /\ length angs = length ks
       /\ Forall (fun a => length a = 9%nat
                           /\ Forall (fun e => is_angle_entry e = true) a) angs
       /\ files w' !! out_path
          = Some (String.concat "" (document_lines (name action) ks angs)))
  /\ header_of (name action)
     = "--@name slashblade_project/anim/"
         +:+ str_replace " " "_" (str_lower (name action)) +:+ LF
         +:+ str_replace " " "_" (str_upper (name action)) +:+ "={" +:+ LF
  /\ ascii_text (header_of (name action)) = true
  /\ (forall w m0 m10,
        name action = "Slash Combo 1" ->
        gather_action_keyframes action = inr [0; 10] ->
        pose_bones (arm_obj 0) = [("Torso", mkPoseBone None m0)] ->
        pose_bones (arm_obj 10) = [("Torso", mkPoseBone None m10)] ->
        exists d0 d10,
          pose_bone_relative_euler_degrees (arm_obj 0) (mkPoseBone None m0) = inr d0
          /\ pose_bone_relative_euler_degrees (arm_obj 10) (mkPoseBone None m10) = inr d10
          /\ export_action_to_slashblade_text arm_obj action out_path w
             = finish_export out_path
                 (slash_combo_lines (vec_to_angle_str d0) (vec_to_angle_str d10))
                 (frame_current w) (with_frame w 10)
          /\ forall w' p,
               export_action_to_slashblade_text arm_obj action out_path w = (w', inr p) ->
               p = out_path
               /\ files w' !! out_path
                  = Some (String.concat ""
                            (slash_combo_lines (vec_to_angle_str d0)
                                               (vec_to_angle_str d10)))).
Proof.
  intros Hascii. split; [|split; [done|split]].
  - intros w w' p Hrun.
    destruct (export_success_inv _ _ _ _ _ _ Hrun)
      as (ks & angs & Hg & Hne & Hm & -> & ->).
    destruct (angles_all_entries _ _ _ Hm) as [Hlen Hall].
    exists ks, angs. repeat split; try done.
    by rewrite exported_files, lookup_insert_eq.
  - unfold header_of. rewrite !ascii_text_app.
    by rewrite (lower_name_ascii _ Hascii), (upper_name_ascii _ Hascii).
  - intros w m0 m10 Hname Hg Hb0 Hb10.
    destruct (torso_only_angles _ _ Hb0) as (d0 & Hd0 & Ha0).
    destruct (torso_only_angles _ _ Hb10) as (d10 & Hd10 & Ha10).
    exists d0, d10. split; [done|]. split; [done|].
    assert (Hm : res_mapM (angles_at arm_obj) [0; 10]
                 = inr [ [vec_to_angle_str d0; "Angle(0,0,0)"; "Angle(0,0,0)";
                          "Angle(0,0,0)"; "Angle(0,0,0)"; "Angle(0,0,0)";
                          "Angle(0,0,0)"; "Angle(0,0,0)"; "Angle(0,0,0)"];
                         [vec_to_angle_str d10; "Angle(0,0,0)"; "Angle(0,0,0)";
                          "Angle(0,0,0)"; "Angle(0,0,0)"; "Angle(0,0,0)";
                          "Angle(0,0,0)"; "Angle(0,0,0)"; "Angle(0,0,0)"] ]).
    { cbn [res_mapM]. unfold angles_at. by rewrite Ha0, Ha10. }
    assert (Hlines : document_lines (name action) [0; 10]
                       [ [vec_to_angle_str d0; "Angle(0,0,0)"; "Angle(0,0,0)";
                          "Angle(0,0,0)"; "Angle(0,0,0)"; "Angle(0,0,0)";
                          "Angle(0,0,0)"; "Angle(0,0,0)"; "Angle(0,0,0)"];
                         [vec_to_angle_str d10; "Angle(0,0,0)"; "Angle(0,0,0)";
                          "Angle(0,0,0)"; "Angle(0,0,0)"; "Angle(0,0,0)";
                          "Angle(0,0,0)"; "Angle(0,0,0)"; "Angle(0,0,0)"] ]
                     = slash_combo_lines (vec_to_angle_str d0) (vec_to_angle_str d10))
      by (rewrite Hname; reflexivity).
    split.
    + rewrite (export_assembled _ _ _ _ _ _ Hg ltac:(done) Hm). by rewrite Hlines.
    + intros w' p Hrun.
      destruct (export_success_inv _ _ _ _ _ _ Hrun)
        as (ks & angs & Hg' & _ & Hm' & -> & ->).
      assert (ks = [0; 10]) as -> by congruence.
      assert (angs = [ [vec_to_angle_str d0; "Angle(0,0,0)"; "Angle(0,0,0)";
                        "Angle(0,0,0)"; "Angle(0,0,0)"; "Angle(0,0,0)";
                        "Angle(0,0,0)"; "Angle(0,0,0)"; "Angle(0,0,0)"];
                       [vec_to_angle_str d10; "Angle(0,0,0)"; "Angle(0,0,0)";
                        "Angle(0,0,0)"; "Angle(0,0,0)"; "Angle(0,0,0)";
                        "Angle(0,0,0)"; "Angle(0,0,0)"; "Angle(0,0,0)"] ]) as ->
        by congruence.
      split; [done|]. by rewrite exported_files, lookup_insert_eq, Hlines.
Qed.

Lemma document_format_witness :
  let run := @export_action_to_slashblade_text recorded_host torso_only slash_combo
               slash_combo_path (world0 NoFault) in
  let torso := "Angle(-90.000003,0.000000,0.000000)" in
  ascii_text (name slash_combo) = true
  /\ (exists ks angs,
        gather_action_keyframes slash_combo = inr ks /\ ks <> []
        /\ res_mapM (@angles_at recorded_host torso_only) ks = inr angs
        /\ length angs = length ks
        /\ Forall (fun a => length a = 9%nat
                            /\ Forall (fun e => is_angle_entry e = true) a) angs
        /\ files (fst run) !! slash_combo_path
           = Some (String.concat "" (document_lines (name slash_combo) ks angs)))
  /\ snd run = inr slash_combo_path
  /\ files (fst run) !! slash_combo_path
     = Some (String.concat "" (slash_combo_lines torso torso)).
Proof.
  intros run torso.
  assert (Hascii : ascii_text (name slash_combo) = true) by reflexivity.
  split; [exact Hascii|].
  pose proof (@document_format recorded_host torso_only slash_combo slash_combo_path Hascii)
    as (Hgeneral & _ & _ & Hscenario).
  assert (Hrun : run = (fst run, inr slash_combo_path)) by (vm_compute; reflexivity).
  split; [exact (Hgeneral (world0 NoFault) (fst run) _ Hrun)|].
  split; [by rewrite Hrun|].
  destruct (Hscenario (world0 NoFault) rest_euler rest_euler
              eq_refl eq_refl eq_refl eq_refl)
    as (d0 & d10 & Hd0 & Hd10 & _ & Hdoc).
  destruct (Hdoc (fst run) slash_combo_path Hrun) as [_ Hfile].
  assert (vec_to_angle_str d0 = torso) as Ht0
    by (vm_compute in Hd0; injection Hd0 as <-; reflexivity).
  assert (vec_to_angle_str d10 = torso) as Ht10
    by (vm_compute in Hd10; injection Hd10 as <-; reflexivity).
  by rewrite Ht0, Ht10 in Hfile.
Defined.

(** * Further properties of the exporter *)

(** ** More on results *)

Lemma res_mapM_inl {A B} (f : A -> result B) l e :
  res_mapM f l = inl e -> exists a, a ∈ l /\ f a = inl e.
Proof.
  induction l as [|a l IH]; simpl; [done|]. intros Hm.
  destruct (f a) as [e'|b] eqn:Hfa; simpl in Hm.
  - inversion Hm; subst. exists a. split; [left|done].
  - destruct (res_mapM f l) as [e'|bs]; simpl in Hm; [|done].
    inversion Hm; subst. destruct (IH eq_refl) as (a' & Ha' & Hfa').
    exists a'. split; [by right|done].
Qed.

Lemma res_mapM_total {A B} (f : A -> result B) l :
  (forall a, a ∈ l -> exists b, f a = inr b) -> exists bs, res_mapM f l = inr bs.
Proof.
  induction l as [|a l IH]; simpl; intros Hall; [by eexists|].
  destruct (Hall a) as [b Hb]; [left|]. rewrite Hb. simpl.
  destruct IH as [bs Hbs]; [intros; apply Hall; by right|].
  rewrite Hbs. simpl. by eexists.
Qed.

Lemma res_mapM_inr_all {A B} (f : A -> result B) l bs a :
  res_mapM f l = inr bs -> a ∈ l -> exists b, f a = inr b.
Proof.
  intros Hm Ha. apply list_elem_of_lookup in Ha as [i Hi].
  destruct (res_mapM_lookup _ _ _ _ _ Hm Hi) as (b & Hb & _). eauto.
Qed.

(** ** More on the keyframe extractor *)

Lemma py_round_err x e : py_round x = inl e -> e = ValueError \/ e = OverflowError.
Proof. destruct x; simpl; intros [= <-]; auto. Qed.

Lemma py_round_nonfinite x :
  is_finite x = false -> exists e, py_round x = inl e.
Proof. destruct x; try discriminate; simpl; eauto. Qed.

Lemma py_round_inr_finite x n : py_round x = inr n -> is_finite x = true.
Proof. by destruct x. Qed.

Lemma gather_points_err kps frames e :
  gather_points kps frames = inl e -> e = ValueError \/ e = OverflowError.
Proof.
  revert frames. induction kps as [|kp kps IH]; simpl; intros frames Hg; [done|].
  destruct (py_round (co_x kp)) as [e'|n] eqn:Hr; simpl in Hg.
  - inversion Hg; subst. by eapply py_round_err.
  - by eapply IH.
Qed.

Lemma gather_curves_err fcus frames e :
  gather_curves fcus frames = inl e -> e = ValueError \/ e = OverflowError.
Proof.
  revert frames. induction fcus as [|fcu fcus IH]; simpl; intros frames Hg; [done|].
  destruct (gather_points (keyframe_points fcu) frames) as [e'|frames'] eqn:Hp;
    simpl in Hg.
  - inversion Hg; subst. by eapply gather_points_err.
  - by eapply IH.
Qed.

Lemma gather_err action e :
  gather_action_keyframes action = inl e -> e = ValueError \/ e = OverflowError.
Proof.
  unfold gather_action_keyframes. intros Hg.
  destruct (gather_curves (fcurves action) ∅) as [e'|frames] eqn:Hc; simpl in Hg;
    [|done].
  inversion Hg; subst. by eapply gather_curves_err.
Qed.

Lemma gather_points_inr_finite kps frames frames' :
  gather_points kps frames = inr frames' ->
  Forall (fun kp => is_finite (co_x kp) = true) kps.
Proof.
  revert frames. induction kps as [|kp kps IH]; simpl; intros frames Hg; [constructor|].
  apply res_bind_inr in Hg as (n & Hn & Hg).
  constructor; [by eapply py_round_inr_finite|by eapply IH].
Qed.

Lemma gather_curves_inr_finite fcus frames frames' :
  gather_curves fcus frames = inr frames' ->
  Forall (fun kp => is_finite (co_x kp) = true) (concat (map keyframe_points fcus)).
Proof.
  revert frames. induction fcus as [|fcu fcus IH]; simpl; intros frames Hg; [constructor|].
  apply res_bind_inr in Hg as (frames1 & Hp & Hg).
  apply Forall_app. split; [by eapply gather_points_inr_finite|by eapply IH].
Qed.

Lemma gather_inr_finite action ks :
  gather_action_keyframes action = inr ks -> finite_clip action.
Proof.
  unfold gather_action_keyframes, finite_clip, action_points. intros Hg.
  apply res_bind_inr in Hg as (frames & Hc & _). by eapply gather_curves_inr_finite.
Qed.

Lemma gather_finite action :
  finite_clip action ->
  gather_action_keyframes action
  = inr (sorted (list_to_set (map (fun kp => frame_of (co_x kp)) (action_points action)))).
Proof.
  intros Hfin. unfold gather_action_keyframes.
  rewrite (gather_curves_finite _ _ Hfin). fold (action_points action). simpl.
  by rewrite (right_id_L ∅ (∪)).
Qed.

Lemma gather_mem action ks n :
  gather_action_keyframes action = inr ks ->
  n ∈ ks <-> exists kp, kp ∈ action_points action /\ py_round (co_x kp) = inr n.
Proof.
  intros Hg. pose proof (gather_inr_finite _ _ Hg) as Hfin.
  rewrite (gather_finite _ Hfin) in Hg. inversion Hg; subst. clear Hg.
  rewrite elem_of_sorted, elem_of_list_to_set, list_elem_of_fmap.
  unfold finite_clip in Hfin. rewrite Forall_forall in Hfin. split.
  - intros (kp & -> & Hkp). exists kp. split; [done|].
    by apply py_round_finite, Hfin.
  - intros (kp & Hkp & Hr). exists kp. split; [by apply py_round_inr|done].
Qed.

Lemma gather_nonfinite action :
  (exists kp, kp ∈ action_points action /\ is_finite (co_x kp) = false) ->
  exists e, gather_action_keyframes action = inl e
            /\ (e = ValueError \/ e = OverflowError).
Proof.
  intros (kp & Hkp & Hbad).
  destruct (gather_action_keyframes action) as [e|ks] eqn:Hg.
  - exists e. split; [done|]. by eapply gather_err.
  - pose proof (gather_inr_finite _ _ Hg) as Hfin.
    unfold finite_clip in Hfin. rewrite Forall_forall in Hfin.
    specialize (Hfin kp Hkp). congruence.
Qed.

(** X1. The extracted frames depend only on the set of rounded frame
    coordinates: two clips with finite coordinates whose points round to
    the same integers give the same list, whatever the order of the
    channels, the order of the points and the number of points per frame. *)
Theorem gather_depends_on_frame_set (a b : Action) :
  finite_clip a -> finite_clip b ->
  (forall n,
     (exists kp, kp ∈ action_points a /\ py_round (co_x kp) = inr n)
     <-> (exists kp, kp ∈ action_points b /\ py_round (co_x kp) = inr n)) ->
  gather_action_keyframes a = gather_action_keyframes b.
Proof.
  intros Ha Hb Hsame.
  destruct (gather_action_keyframes a) as [e|ka] eqn:Hga;
    [rewrite (gather_finite _ Ha) in Hga; discriminate|].
  destruct (gather_action_keyframes b) as [e|kb] eqn:Hgb;
    [rewrite (gather_finite _ Hb) in Hgb; discriminate|].
  f_equal. apply (StronglySorted_unique Z.le).
  - by eapply StronglySorted_lt_le, gather_sorted.
  - by eapply StronglySorted_lt_le, gather_sorted.
  - apply NoDup_Permutation.
    + by eapply StronglySorted_lt_NoDup, gather_sorted.
    + by eapply StronglySorted_lt_NoDup, gather_sorted.
    + intros n. by rewrite (gather_mem _ _ n Hga), (gather_mem _ _ n Hgb).
Qed.

Lemma gather_depends_on_frame_set_witness :
  gather_action_keyframes slash_combo
  = gather_action_keyframes
      (mkAction "Other" [mkFCurve [key 10]; mkFCurve []; mkFCurve [key 10; key 0; key 0]]).
Proof.
  apply gather_depends_on_frame_set.
  - repeat constructor.
  - repeat constructor.
  - intros n. split; intros (kp & Hkp & Hr); vm_compute in Hkp;
      repeat (apply elem_of_cons in Hkp as [->|Hkp];
              [eexists; split; [|exact Hr]; vm_compute; set_solver|]);
      by apply elem_of_nil in Hkp.
Defined.

(** X2. A keyframe point whose frame coordinate is NaN or infinite makes
    the extraction raise [ValueError] or [OverflowError], and the export
    ends with that exception before it has touched the scene or the file
    system. *)
Theorem nonfinite_coordinate_aborts `{Host} (arm_obj : Z -> Armature)
    action out_path w :
  (exists kp, kp ∈ action_points action /\ is_finite (co_x kp) = false) ->
  exists e,
    (e = ValueError \/ e = OverflowError)
    /\ gather_action_keyframes action = inl e
    /\ export_action_to_slashblade_text arm_obj action out_path w = (w, inl e).
Proof.
  intros Hbad. destruct (gather_nonfinite _ Hbad) as (e & Hg & He).
  exists e. split; [done|]. split; [done|]. by apply export_gather_err.
Qed.

Lemma nonfinite_coordinate_aborts_witness :
  exists e,
    (e = ValueError \/ e = OverflowError)
    /\ gather_action_keyframes runaway_clip = inl e
    /\ @export_action_to_slashblade_text recorded_host torso_only runaway_clip
         slash_combo_path (world0 NoFault) = (world0 NoFault, inl e).
Proof.
  apply (@nonfinite_coordinate_aborts recorded_host).
  exists (mkKeyframe (S754_infinity false) fzero). split; [|reflexivity].
  vm_compute. set_solver.
Defined.

Lemma angle_line_err `{Host} (arm : Armature) bone_name e :
  angle_line arm bone_name = inl e -> e = ValueError.
Proof.
  unfold angle_line, pose_bone_relative_euler_degrees.
  destruct (bones_lookup _ _) as [pb|]; [|done].
  destruct (parent pb) as [p|]; [|done].
  destruct (inverted (matrix p)); [done|]. simpl. by intros [= <-].
Qed.

Lemma angles_err `{Host} (arm_obj : Z -> Armature) ks e :
  res_mapM (angles_at arm_obj) ks = inl e -> e = ValueError.
Proof.
  intros Hm. apply res_mapM_inl in Hm as (f & _ & Hf).
  unfold angles_at in Hf. apply res_mapM_inl in Hf as (b & _ & Hb).
  by eapply angle_line_err.
Qed.

(** X5. An export can only end with the "no keyframes" [RuntimeError],
    with the [ValueError] or [OverflowError] of a keyframe coordinate or
    of a singular parent transform, or with an [OSError] of the file
    output; the access [keyframes[i + 1]] never raises [IndexError]. *)
Theorem export_exceptions `{Host} (arm_obj : Z -> Armature)
    action out_path w w' e :
  export_action_to_slashblade_text arm_obj action out_path w = (w', inl e) ->
  export_exn e /\ e <> IndexError.
Proof.
  intros Hrun. assert (Hkind : export_exn e).
  { apply export_outcome in Hrun. unfold export_exn.
    inversion Hrun; subst; auto.
    - destruct (gather_err _ _ ltac:(eassumption)); auto.
    - right. left. by eapply angles_err. }
  split; [done|]. unfold export_exn in Hkind. intros ->.
  destruct Hkind as [?|[?|[?|?]]]; discriminate.
Qed.

Lemma export_exceptions_witness :
  export_exn OSError /\ OSError <> IndexError.
Proof.
  apply (@export_exceptions recorded_host torso_only slash_combo slash_combo_path
           (world0 OpenFails)
           (fst (@export_action_to_slashblade_text recorded_host torso_only slash_combo
                   slash_combo_path (world0 OpenFails)))).
  vm_compute. reflexivity.
Defined.

(** X3. For a clip with finite coordinates, the export ends with the
    "no keyframes" error exactly when the clip has no keyframe point in
    any channel; the world is then as it was. *)
Theorem no_keyframes_iff_no_points `{Host} (arm_obj : Z -> Armature)
    action out_path w :
  finite_clip action ->
  (action_points action = []
   <-> export_action_to_slashblade_text arm_obj action out_path w
       = (w, inl (RuntimeError "No keyframes found in action!")))
  /\ (forall w',
        export_action_to_slashblade_text arm_obj action out_path w
        = (w', inl (RuntimeError "No keyframes found in action!")) -> w' = w).
Proof.
  intros Hfin.
  assert (Hinv : forall w',
    export_action_to_slashblade_text arm_obj action out_path w
    = (w', inl (RuntimeError "No keyframes found in action!")) ->
    w' = w /\ gather_action_keyframes action = inr []).
  { intros w' Hrun. apply export_outcome in Hrun.
    inversion Hrun; subst; try done.
    - destruct (gather_err _ _ ltac:(eassumption)); discriminate.
    - match goal with Hm : res_mapM _ _ = inl _ |- _ => apply angles_err in Hm end.
      discriminate. }
  split; [split|].
  - intros Hpts. apply export_no_keyframes.
    rewrite (gather_finite _ Hfin), Hpts. done.
  - intros Hrun. destruct (Hinv _ Hrun) as [_ Hg].
    destruct (action_points action) as [|kp pts] eqn:Hpts; [done|].
    assert (Hin : frame_of (co_x kp) ∈ ([] : list Z)).
    { apply (gather_mem _ _ _ Hg). exists kp. rewrite Hpts. split; [left|].
      apply py_round_finite. unfold finite_clip in Hfin. rewrite Hpts in Hfin.
      by apply Forall_cons in Hfin as [? _]. }
    by apply elem_of_nil in Hin.
  - intros w' Hrun. by destruct (Hinv _ Hrun).
Qed.

Lemma no_keyframes_iff_no_points_witness :
  @export_action_to_slashblade_text recorded_host torso_only
    (mkAction "Idle" [mkFCurve []; mkFCurve []]) slash_combo_path (world0 NoFault)
  = (world0 NoFault, inl (RuntimeError "No keyframes found in action!")).
Proof.
  assert (Hfin : finite_clip (mkAction "Idle" [mkFCurve []; mkFCurve []]))
    by constructor.
  exact (proj1 (proj1 (@no_keyframes_iff_no_points recorded_host torso_only
                         (mkAction "Idle" [mkFCurve []; mkFCurve []])
                         slash_combo_path (world0 NoFault) Hfin)) eq_refl).
Defined.

Lemma py_round_nearest x n : py_round x = inr n -> nearest_integer x n.
Proof.
  destruct x as [s|s| |s m e]; simpl; try discriminate.
  - by intros [= <-].
  - intros [= <-]. unfold round_half_even_pos, nearest_integer.
    destruct e as [|q|q].
    + unfold signed_mantissa.
      destruct s; [change (Z.neg m) with (- Z.pos m)|]; ring.
    + unfold signed_mantissa.
      destruct s; [change (Z.neg m) with (- Z.pos m)|]; ring.
    + set (d := 2 ^ Z.pos q).
      assert (0 < d) as Hd by (apply Z.pow_pos_nonneg; lia).
      pose proof (Z.div_mod (Z.pos m) d ltac:(lia)) as Hdm.
      pose proof (Z.mod_pos_bound (Z.pos m) d Hd) as Hr.
      set (k := Z.pos m / d) in *. set (r := Z.pos m mod d) in *.
      assert (Hsm : signed_mantissa s m = if s then - (d * k + r) else d * k + r).
      { unfold signed_mantissa. destruct s; lia. }
      rewrite Hsm. clear Hsm. clearbody k r d.
      destruct (Z.compare_spec (2 * r) d) as [Hc|Hc|Hc];
        [destruct (Z.even k)|..]; destruct s; apply Z.abs_le; split; nia.
Qed.

(** X4. Every extracted frame is an integer nearest to the frame
    coordinate of some keyframe point: equal to it when the coordinate is
    an integer, at most half a frame away otherwise. *)
Theorem extracted_frames_are_nearest action ks n :
  gather_action_keyframes action = inr ks -> n ∈ ks ->
  exists kp, kp ∈ action_points action /\ nearest_integer (co_x kp) n.
Proof.
  intros Hg Hn. apply (gather_mem _ _ _ Hg) in Hn as (kp & Hkp & Hr).
  exists kp. split; [done|]. by apply py_round_nearest.
Qed.

Lemma extracted_frames_are_nearest_witness :
  exists kp, kp ∈ action_points three_keys /\ nearest_integer (co_x kp) 5.
Proof.
  apply (extracted_frames_are_nearest three_keys [1; 5; 12] 5).
  - vm_compute. reflexivity.
  - set_solver.
Defined.

(** ** What an export touches *)

Lemma ancestors_iter `{Host} fuel d a :
  a ∈ ancestors fuel d -> exists k, a = Nat.iter k path_dirname d.
Proof.
  revert d. induction fuel as [|fuel IH]; intros d; cbn [ancestors].
  { by intros ?%elem_of_nil. }
  destruct (String.eqb d ""); [by intros ?%elem_of_nil|].
  intros [->|Ha]%elem_of_cons; [by exists 0%nat|].
  destruct (String.eqb (path_dirname d) d); [by apply elem_of_nil in Ha|].
  destruct (IH _ Ha) as [k ->]. exists (S k). by rewrite Nat.iter_succ_r.
Qed.

Lemma dir_chain_above `{Host} (ds ds' : gset string) d :
  ds' ⊆ list_to_set (dir_chain d) ∪ ds ->
  forall a, a ∈ ds' -> a ∈ ds \/ exists k, a = Nat.iter k path_dirname d.
Proof.
  intros Hsub a Ha. apply Hsub in Ha. apply elem_of_union in Ha as [Ha|Ha]; [|by left].
  right. apply elem_of_list_to_set in Ha. by eapply ancestors_iter.
Qed.

(** X6. Whatever its outcome, an export leaves every file other than the
    output path as it was and removes no directory; every directory it
    adds is the directory of the output path or one above it, reached by
    repeated [os.path.dirname]; and when the directory of the output
    path exists already it adds none. *)
Theorem export_touches_only_out_path `{Host} (arm_obj : Z -> Armature)
    action out_path w w' r :
  export_action_to_slashblade_text arm_obj action out_path w = (w', r) ->
  (forall path, path <> out_path -> files w' !! path = files w !! path)
  /\ dirs w ⊆ dirs w'
  /\ (forall a, a ∈ dirs w' ->
        a ∈ dirs w \/ exists k, a = Nat.iter k path_dirname (path_dirname out_path))
  /\ (path_exists w (path_dirname out_path) = true -> dirs w' = dirs w).
Proof.
  intros Hrun. apply export_outcome in Hrun.
  pose proof (ensured_dirs w (path_dirname out_path)) as [Hsub Hsup].
  assert (Hsame : path_exists w (path_dirname out_path) = true ->
                  dirs (ensured w (path_dirname out_path)) = dirs w)
    by (unfold ensured; by intros ->).
  assert (Hnone : forall a, a ∈ dirs w ->
            a ∈ dirs w \/ exists k, a = Nat.iter k path_dirname (path_dirname out_path))
    by (by left).
  inversion Hrun; subst;
    change (files (with_frame ?x _)) with (files x);
    change (dirs (with_frame ?x _)) with (dirs x);
    rewrite ?exported_files, ?exported_dirs, ?ensured_files.
  1-3: by repeat split.
  - match goal with Hd : ensure_dir _ _ = _ |- _ =>
      destruct (ensure_dir_err _ _ _ _ Hd) as (_ & Hex & Hf & _ & _ & Hlo & Hhi) end.
    rewrite Hf. repeat split; try done; [by apply dir_chain_above|congruence].
  - repeat split; try done. by apply dir_chain_above.
  - repeat split; try done; [|by apply dir_chain_above].
    intros path Hne. by rewrite lookup_insert_ne.
  - repeat split; try done; [|by apply dir_chain_above].
    intros path Hne. by rewrite lookup_insert_ne.
Qed.

Lemma export_touches_only_out_path_witness :
  let run := @export_action_to_slashblade_text recorded_host torso_only slash_combo
               slash_combo_path world1 in
  (forall path, path <> slash_combo_path ->
     files (fst run) !! path = files world1 !! path)
  /\ dirs world1 ⊆ dirs (fst run)
  /\ (forall a, a ∈ dirs (fst run) ->
        a ∈ dirs world1
        \/ exists k, a = Nat.iter k (@path_dirname recorded_host)
                           (@path_dirname recorded_host slash_combo_path))
  /\ (path_exists world1 (@path_dirname recorded_host slash_combo_path) = true ->
      dirs (fst run) = dirs world1).
Proof.
  intros run.
  exact (@export_touches_only_out_path recorded_host torso_only slash_combo
           slash_combo_path world1 (fst run) (snd run) (surjective_pairing run)).
Defined.

(** ** When an export gets to the file output *)

Lemma angle_line_ok `{Host} (arm : Armature) bone_name :
  (exists entry, angle_line arm bone_name = inr entry)
  <-> (forall pb p,
         bones_lookup (pose_bones arm) bone_name = Some pb ->
         parent pb = Some p -> is_Some (inverted (matrix p))).
Proof.
  unfold angle_line, pose_bone_relative_euler_degrees.
  destruct (bones_lookup _ _) as [pb|];
    [|split; [intros _ pb p Hl; discriminate Hl|intros _; by eexists]].
  destruct (parent pb) as [p|] eqn:Hp;
    [|split; [intros _ pb' p' [= <-] Hp'; congruence|intros _; by eexists]].
  destruct (inverted (matrix p)) as [pinv|] eqn:Hinv; simpl.
  - split; [|intros _; by eexists]. intros _ pb' p' [= <-] Hp'.
    assert (p' = p) as -> by congruence. by rewrite Hinv.
  - split; [intros [? ?]; discriminate|]. intros Hall.
    destruct (Hall pb p eq_refl Hp) as [? Hsome]. congruence.
Qed.

Lemma angles_at_ok `{Host} (arm_obj : Z -> Armature) f :
  (exists a, angles_at arm_obj f = inr a) <-> parents_invertible (arm_obj f).
Proof.
  unfold angles_at, parents_invertible. split.
  - intros [a Ha] bone_name pb p Hin Hl Hp.
    destruct (res_mapM_inr_all _ _ _ _ Ha Hin) as [entry Hentry].
    by eapply (proj1 (angle_line_ok _ _)); eauto.
  - intros Hall. apply res_mapM_total. intros bone_name Hin.
    apply angle_line_ok. intros pb p Hl Hp. by eapply Hall.
Qed.

Lemma gather_nonempty action ks :
  gather_action_keyframes action = inr ks -> ks <> [] <-> action_points action <> [].
Proof.
  intros Hg. pose proof (gather_inr_finite _ _ Hg) as Hfin. split.
  - intros Hne Hpts. rewrite (gather_finite _ Hfin), Hpts in Hg.
    inversion Hg; subst. by apply Hne.
  - intros Hpts Hnil. destruct (action_points action) as [|kp pts] eqn:Hpt; [done|].
    assert (Hin : frame_of (co_x kp) ∈ ks).
    { apply (gather_mem _ _ _ Hg). exists kp. rewrite Hpt. split; [left|].
      apply py_round_finite. unfold finite_clip in Hfin. rewrite Hpt in Hfin.
      by apply Forall_cons in Hfin as [? _]. }
    rewrite Hnil in Hin. by apply elem_of_nil in Hin.
Qed.

(** X7. For a clip whose frames lie in the scene's frame range, so that
    every seek lands on its keyframe: the export gets as far as the file
    output, with the whole document assembled, exactly when every frame
    coordinate is finite,
    the clip has at least one keyframe point, and at every extracted
    frame each [BONE_ORDER] bone that has a parent has a parent
    transform that can be inverted. Otherwise it ends with an exception
    that is not an [OSError], with no file written and no directory
    made. Every run that completes got to the file output. *)
Theorem export_reaches_output_iff `{Host} (arm_obj : Z -> Armature)
    action out_path w :
  (forall kp f, kp ∈ action_points action -> py_round (co_x kp) = inr f -> scene_frame f) ->
  (reaches_output arm_obj action out_path w
   <-> (finite_clip action
        /\ action_points action <> []
        /\ forall kp f,
             kp ∈ action_points action -> py_round (co_x kp) = inr f ->
             parents_invertible (arm_obj f)))
  /\ (~ reaches_output arm_obj action out_path w ->
      exists w' e,
        export_action_to_slashblade_text arm_obj action out_path w = (w', inl e)
        /\ e <> OSError /\ files w' = files w /\ dirs w' = dirs w)
  /\ (forall w' p,
        export_action_to_slashblade_text arm_obj action out_path w = (w', inr p) ->
        reaches_output arm_obj action out_path w).
Proof.
  intros _.
  assert (Hreach : forall ks angs,
            gather_action_keyframes action = inr ks -> ks <> [] ->
            res_mapM (angles_at arm_obj) ks = inr angs ->
            reaches_output arm_obj action out_path w).
  { intros ks angs Hg Hne Hm.
    destruct (export_assembled_last _ _ out_path w _ _ Hg Hne Hm) as (f & Hlast & Hrun).
    by exists ks, angs, f. }
  split; [split|split].
  - intros (ks & angs & f & Hg & Hm & Hlast & _).
    assert (Hne : ks <> []) by (by intros ->).
    split; [by eapply gather_inr_finite|]. split; [by apply (gather_nonempty _ _ Hg)|].
    intros kp g Hkp Hr. apply angles_at_ok.
    eapply res_mapM_inr_all; [exact Hm|]. apply (gather_mem _ _ _ Hg). eauto.
  - intros (Hfin & Hpts & Hinv).
    pose proof (gather_finite _ Hfin) as Hg. set (ks := sorted _) in Hg.
    destruct (res_mapM_total (angles_at arm_obj) ks) as [angs Hm].
    { intros f Hf. apply (gather_mem _ _ _ Hg) in Hf as (kp & Hkp & Hr).
      apply angles_at_ok. by eapply Hinv. }
    eapply Hreach; [exact Hg| |exact Hm]. by apply (gather_nonempty _ _ Hg).
  - intros Hnot.
    destruct (gather_action_keyframes action) as [e|ks] eqn:Hg.
    { exists w, e. split; [by apply export_gather_err|].
      split; [|done]. destruct (gather_err _ _ Hg) as [-> | ->]; discriminate. }
    destruct ks as [|k0 ks'].
    { eexists w, _. split; [by apply export_no_keyframes|]. done. }
    destruct (res_mapM (angles_at arm_obj) (k0 :: ks')) as [e|angs] eqn:Hm.
    + destruct (export_pose_err _ _ out_path w _ _ Hg Hm) as (f & _ & Hrun).
      exists (with_frame w f), e. split; [done|]. split; [|done].
      rewrite (angles_err _ _ _ Hm). discriminate.
    + exfalso. apply Hnot. by eapply Hreach.
  - intros w' p Hrun.
    destruct (export_success_inv _ _ _ _ _ _ Hrun)
      as (ks & angs & Hg & Hne & Hm & _ & _).
    by eapply Hreach.
Qed.

Lemma export_reaches_output_iff_witness :
  (forall kp f, kp ∈ action_points slash_combo -> py_round (co_x kp) = inr f -> scene_frame f)
  /\ @reaches_output recorded_host rig_a slash_combo slash_combo_path (world0 NoFault).
Proof.
  assert (Hint : forall kp f,
            kp ∈ action_points slash_combo -> py_round (co_x kp) = inr f -> scene_frame f).
  { intros kp f Hkp Hr. vm_compute in Hkp.
    repeat (apply elem_of_cons in Hkp as [->|Hkp];
            [vm_compute in Hr; injection Hr as <-; unfold scene_frame; lia|]).
    by apply elem_of_nil in Hkp. }
  split; [exact Hint|].
  apply (proj1 (@export_reaches_output_iff recorded_host rig_a slash_combo
                  slash_combo_path (world0 NoFault) Hint)).
  split; [repeat constructor|]. split; [done|].
  intros kp f _ _ bone_name pb p _ _ _. by eexists.
Defined.



(** ** The text of an angle entry *)

Lemma append_cons c a b : String c a +:+ b = String c (a +:+ b).
Proof. reflexivity. Qed.

Lemma append_nil b : "" +:+ b = b.
Proof. reflexivity. Qed.

Lemma str_forall_app P a b :
  str_forall P (a +:+ b) = str_forall P a && str_forall P b.
Proof.
  induction a as [|c a IH]; [by rewrite append_nil|].
  rewrite append_cons. cbn [str_forall]. rewrite IH. by rewrite andb_assoc.
Qed.

Lemma count_char_app c a b :
  count_char c (a +:+ b) = (count_char c a + count_char c b)%nat.
Proof.
  induction a as [|x a IH]; [by rewrite append_nil|].
  rewrite append_cons. cbn [count_char]. rewrite IH. lia.
Qed.

Lemma str_forall_count P c s :
  str_forall P s = true -> P c = false -> count_char c s = 0%nat.
Proof.
  intros Hs Hc. induction s as [|a s IH]; [done|].
  cbn [str_forall count_char] in *. apply andb_true_iff in Hs as [Ha Hs].
  rewrite (IH Hs). destruct (Ascii.eqb a c) eqn:Heq; [|done].
  apply Ascii.eqb_eq in Heq as ->. congruence.
Qed.

Lemma digit_number_char c : is_digit c = true -> number_char c = true.
Proof. unfold number_char. by intros ->. Qed.

Lemma all_digits_number s : all_digits s = true -> str_forall number_char s = true.
Proof.
  induction s as [|c s IH]; [done|]. cbn [all_digits str_forall].
  intros [Hc Hs]%andb_true_iff. by rewrite (digit_number_char _ Hc), (IH Hs).
Qed.

Lemma format_6f_chars x : str_forall number_char (format_6f x) = true.
Proof.
  destruct x as [s|s| |s m e]; try (by destruct s); [done|].
  unfold format_6f.
  set (n := round_half_even_pos (m * 1000000) e).
  assert (0 <= n / 1000000) as Hq
    by (apply Z.div_pos; [apply round_half_even_pos_nonneg|lia]).
  destruct (py_str_nonneg _ Hq) as (c & ds & -> & Hc & Hds).
  rewrite !str_forall_app. cbn [str_forall].
  rewrite (digit_number_char _ Hc), (all_digits_number _ Hds).
  rewrite (all_digits_number _ (frac6_digits n)). by destruct s.
Qed.

(** X9. Whatever the three floats, NaN and infinities included, the
    text of an angle entry is [Angle(] followed by three fields made of
    digits, sign, point and the letters of [nan] and [inf] only,
    separated by exactly two commas and closed by the one [)]: a reader
    can split it at the commas. *)
Theorem vec_to_angle_str_shape (d0 d1 d2 : float) :
  vec_to_angle_str (d0, d1, d2)
  = "Angle(" +:+ format_6f d0 +:+ "," +:+ format_6f d1 +:+ "," +:+ format_6f d2 +:+ ")"
  /\ str_forall number_char (format_6f d0) = true
  /\ str_forall number_char (format_6f d1) = true
  /\ str_forall number_char (format_6f d2) = true
  /\ count_char "," (vec_to_angle_str (d0, d1, d2)) = 2%nat
  /\ count_char "(" (vec_to_angle_str (d0, d1, d2)) = 1%nat
  /\ count_char ")" (vec_to_angle_str (d0, d1, d2)) = 1%nat.
Proof.
  split; [done|]. repeat (split; [apply format_6f_chars|]).
  unfold vec_to_angle_str. rewrite !count_char_app.
  rewrite !(str_forall_count number_char "," _ (format_6f_chars _) eq_refl).
  rewrite !(str_forall_count number_char "(" _ (format_6f_chars _) eq_refl).
  rewrite !(str_forall_count number_char ")" _ (format_6f_chars _) eq_refl).
  done.
Qed.

(** ** Names *)

Lemma str_map_map f g s : str_map f (str_map g s) = str_map (fun c => f (g c)) s.
Proof. induction s as [|c s IH]; simpl; [done|]. by rewrite IH. Qed.

Lemma str_map_ext f g s : (forall c, f c = g c) -> str_map f s = str_map g s.
Proof. intros Hfg. induction s as [|c s IH]; simpl; [done|]. by rewrite Hfg, IH. Qed.

Lemma str_map_length f s : String.length (str_map f s) = String.length s.
Proof. induction s as [|c s IH]; simpl; [done|]. by rewrite IH. Qed.

Lemma str_map_forall P f s :
  (forall c, P (f c) = true) -> str_forall P (str_map f s) = true.
Proof. intros HP. induction s as [|c s IH]; simpl; [done|]. by rewrite HP, IH. Qed.

Ltac by_ascii_cases c := destruct c as [[] [] [] [] [] [] [] []]; reflexivity.

Lemma lower_name_char_ok c :
  lower_name_char ((fun c => if Ascii.eqb c " " then "_"%char else c) (ascii_lower c)) = true.
Proof. by_ascii_cases c. Qed.

Lemma upper_name_char_ok c :
  upper_name_char ((fun c => if Ascii.eqb c " " then "_"%char else c) (ascii_upper c)) = true.
Proof. by_ascii_cases c. Qed.

(** X10. For a clip name that is ASCII text: the module name in the
    header and the stem of the file name (the clip name lower-cased,
    spaces replaced) contain no space and no capital letter; the table
    name (upper-cased, spaces replaced) contains no space and no small
    letter; both are ASCII text as long as the clip name. *)
Theorem names_are_normalised (anim_name : string) :
  ascii_text anim_name = true ->
  let anim_name_lower := str_replace " " "_" (str_lower anim_name) in
  let anim_name_upper := str_replace " " "_" (str_upper anim_name) in
  str_forall lower_name_char anim_name_lower = true
  /\ str_forall upper_name_char anim_name_upper = true
  /\ ascii_text anim_name_lower = true
  /\ ascii_text anim_name_upper = true
  /\ String.length anim_name_lower = String.length anim_name
  /\ String.length anim_name_upper = String.length anim_name
  /\ filename_of anim_name = anim_name_lower +:+ ".txt"
  /\ header_of anim_name
     = "--@name slashblade_project/anim/" +:+ anim_name_lower +:+ LF
         +:+ anim_name_upper +:+ "={" +:+ LF.
Proof.
  intros Hascii. cbv zeta.
  split; [|split; [|split; [|split; [|split; [|split; [|split]]]]]].
  - unfold str_replace, str_lower. rewrite str_map_map.
    apply str_map_forall, lower_name_char_ok.
  - unfold str_replace, str_upper. rewrite str_map_map.
    apply str_map_forall, upper_name_char_ok.
  - by apply lower_name_ascii.
  - by apply upper_name_ascii.
  - unfold str_replace, str_lower. by rewrite !str_map_length.
  - unfold str_replace, str_upper. by rewrite !str_map_length.
  - done.
  - done.
Qed.

Lemma names_are_normalised_witness :
  ascii_text "Slash Combo 1" = true
  /\ str_replace " " "_" (str_lower "Slash Combo 1") = "slash_combo_1"
  /\ str_replace " " "_" (str_upper "Slash Combo 1") = "SLASH_COMBO_1"
  /\ str_forall lower_name_char "slash_combo_1" = true
  /\ str_forall upper_name_char "SLASH_COMBO_1" = true
  /\ filename_of "Slash Combo 1" = "slash_combo_1.txt".
Proof.
  assert (Hascii : ascii_text "Slash Combo 1" = true) by reflexivity.
  pose proof (names_are_normalised "Slash Combo 1" Hascii)
    as (Hlow & Hup & _ & _ & _ & _ & Hfile & _).
  split; [exact Hascii|]. split; [reflexivity|]. split; [reflexivity|].
  split; [exact Hlow|]. split; [exact Hup|exact Hfile].
Defined.

Lemma lower_of_upper c : ascii_lower (ascii_upper c) = ascii_lower c.
Proof. by_ascii_cases c. Qed.

Lemma upper_of_upper c : ascii_upper (ascii_upper c) = ascii_upper c.
Proof. by_ascii_cases c. Qed.

Lemma lower_of_lower c : ascii_lower (ascii_lower c) = ascii_lower c.
Proof. by_ascii_cases c. Qed.

Lemma upper_of_lower c : ascii_upper (ascii_lower c) = ascii_upper c.
Proof. by_ascii_cases c. Qed.

Lemma lower_of_underscored c :
  (fun c => if Ascii.eqb c " " then "_"%char else c)
    (ascii_lower (if Ascii.eqb c " " then "_"%char else c))
  = (fun c => if Ascii.eqb c " " then "_"%char else c) (ascii_lower c).
Proof. by_ascii_cases c. Qed.

Lemma upper_of_underscored c :
  (fun c => if Ascii.eqb c " " then "_"%char else c)
    (ascii_upper (if Ascii.eqb c " " then "_"%char else c))
  = (fun c => if Ascii.eqb c " " then "_"%char else c) (ascii_upper c).
Proof. by_ascii_cases c. Qed.

Lemma lower_underscored_invariant (g : ascii -> ascii) s :
  (forall c, (fun c => if Ascii.eqb c " " then "_"%char else c) (ascii_lower (g c))
             = (fun c => if Ascii.eqb c " " then "_"%char else c) (ascii_lower c)) ->
  str_replace " " "_" (str_lower (str_map g s)) = str_replace " " "_" (str_lower s).
Proof.
  intros Hg. unfold str_replace, str_lower. rewrite !str_map_map.
  apply str_map_ext. intros c. apply Hg.
Qed.

Lemma upper_underscored_invariant (g : ascii -> ascii) s :
  (forall c, (fun c => if Ascii.eqb c " " then "_"%char else c) (ascii_upper (g c))
             = (fun c => if Ascii.eqb c " " then "_"%char else c) (ascii_upper c)) ->
  str_replace " " "_" (str_upper (str_map g s)) = str_replace " " "_" (str_upper s).
Proof.
  intros Hg. unfold str_replace, str_upper. rewrite !str_map_map.
  apply str_map_ext. intros c. apply Hg.
Qed.

(** X11. Clip names that differ only in the case of ASCII letters or in
    spaces against underscores collide: upper-casing, lower-casing or
    underscoring the name changes neither the header nor the file name,
    so such clips are written to the same path with the same header. *)
Theorem names_collide `{Host} `{Os} (data : BlendData) (anim_name : string) :
  let same other :=
    header_of other = header_of anim_name
    /\ filename_of other = filename_of anim_name
    /\ out_path_of data other = out_path_of data anim_name in
  same (str_upper anim_name)
  /\ same (str_lower anim_name)
  /\ same (str_replace " " "_" anim_name).
Proof.
  cbv zeta.
  assert (Hall : forall g : ascii -> ascii,
    (forall c, (fun c => if Ascii.eqb c " " then "_"%char else c) (ascii_lower (g c))
               = (fun c => if Ascii.eqb c " " then "_"%char else c) (ascii_lower c)) ->
    (forall c, (fun c => if Ascii.eqb c " " then "_"%char else c) (ascii_upper (g c))
               = (fun c => if Ascii.eqb c " " then "_"%char else c) (ascii_upper c)) ->
    header_of (str_map g anim_name) = header_of anim_name
    /\ filename_of (str_map g anim_name) = filename_of anim_name
    /\ out_path_of data (str_map g anim_name) = out_path_of data anim_name).
  { intros g Hl Hu. unfold out_path_of, filename_of, header_of.
    by rewrite (lower_underscored_invariant g _ Hl), (upper_underscored_invariant g _ Hu). }
  split; [|split].
  - apply Hall; intros c; by rewrite ?lower_of_upper, ?upper_of_upper.
  - apply Hall; intros c; by rewrite ?lower_of_lower, ?upper_of_lower.
  - apply Hall; intros c; [apply lower_of_underscored|apply upper_of_underscored].
Qed.

(** ** The output directory *)

(** X12. [ensure_dir] changes no file, does not move the cursor and
    removes no directory. When it returns, the path exists and a second
    call changes nothing; when the path existed already it does not call
    [os.makedirs] at all, so it returns with the world as it was
    whatever the device would answer. It raises only for a path that did
    not exist; directories above the path made before the failure stay.
    The empty path, which never exists, always raises, with nothing
    made. *)
Theorem ensure_dir_spec `{Host} (path : string) (w w' : World) (r : result unit) :
  ensure_dir path w = (w', r) ->
  files w' = files w /\ frame_current w' = frame_current w
  /\ dirs w ⊆ dirs w'
  /\ (forall a, a ∈ dirs w' -> a ∈ dirs w \/ exists k, a = Nat.iter k path_dirname path)
  /\ (r = inr tt -> path_exists w' path = true /\ ensure_dir path w' = (w', inr tt))
  /\ (path_exists w path = true -> w' = w /\ r = inr tt)
  /\ (forall e, r = inl e -> path_exists w path = false)
  /\ (path = "" -> w' = w /\ exists e, r = inl e).
Proof.
  intros Hrun.
  assert (Hempty : path = "" -> w' = w /\ exists e, r = inl e).
  { intros ->. unfold ensure_dir, makedirs, path_exists in Hrun. simpl in Hrun.
    inversion Hrun; subst. eauto. }
  destruct r as [e|[]].
  - destruct (ensure_dir_err _ _ _ _ Hrun) as (-> & Hex & Hf & Hc & _ & Hlo & Hhi).
    split; [done|]. split; [done|]. split; [done|].
    split; [by apply dir_chain_above|]. split; [intros; discriminate|].
    split; [intros; congruence|]. split; [done|exact Hempty].
  - destruct (ensure_dir_ok _ _ _ Hrun) as [-> Hex].
    destruct (ensured_dirs w path) as [Hlo Hhi].
    rewrite ensured_files, ensured_frame.
    split; [done|]. split; [done|]. split; [done|].
    split; [by apply dir_chain_above|].
    split; [intros _; split; [done|by apply ensure_dir_exists]|].
    split; [intros Hex'; split; [unfold ensured; by rewrite Hex'|done]|].
    split; [intros e; discriminate|exact Hempty].
Qed.

Lemma ensure_dir_spec_witness :
  let run := @ensure_dir recorded_host "proj/slashblade_project/anim" (world0 NoFault) in
  path_exists (fst run) "proj/slashblade_project/anim" = true
  /\ @ensure_dir recorded_host "proj/slashblade_project/anim" (fst run) = (fst run, inr tt).
Proof.
  intros run.
  assert (Hrun : run = (fst run, inr tt)) by (vm_compute; reflexivity).
  exact (proj1 (proj2 (proj2 (proj2 (proj2
           (@ensure_dir_spec recorded_host _ _ _ _ Hrun))))) eq_refl).
Defined.

(** ** The length of the animation *)

Lemma total_duration_suffix ks : forall rest i f,
  (forall k g, rest !! k = Some g -> ks !! (i + k)%nat = Some g) ->
  length ks = (i + length rest)%nat ->
  head rest = Some f ->
  total_duration ks i rest = default f (last rest) - f + 1.
Proof.
  induction rest as [|x rest IH]; intros i f Hks Hlen Hhead; [done|].
  simpl in Hhead. inversion Hhead; subst x. clear Hhead.
  assert (Hi : ks !! i = Some f).
  { specialize (Hks 0%nat f eq_refl). by rewrite Nat.add_0_r in Hks. }
  cbn [total_duration]. rewrite (frame_length_ok _ _ _ Hi).
  rewrite (hold_duration_next _ _ _ Hi).
  destruct rest as [|g rest'].
  - simpl in Hlen. rewrite (proj2 (lookup_ge_None ks (S i))) by lia. simpl. lia.
  - assert (Hnext : ks !! S i = Some g).
    { specialize (Hks 1%nat g eq_refl). by rewrite Nat.add_1_r in Hks. }
    rewrite Hnext. rewrite (IH (S i) g).
    + change (last (f :: g :: rest')) with (last (g :: rest')).
      destruct (last_is_Some_cons g rest') as [y ->]. simpl. lia.
    + intros k h Hk. specialize (Hks (S k) h Hk).
      by replace (S i + k)%nat with (i + S k)%nat by lia.
    + simpl in *. lia.
    + done.
Qed.

(** X15. The hold durations the code computes for the blocks of a
    document add up to the span from the first to the last keyframe plus
    one, the one being the fixed duration of the final block. *)
Theorem durations_add_up (keyframes : list Z) (first final : Z) :
  head keyframes = Some first -> last keyframes = Some final ->
  total_duration keyframes 0 keyframes = final - first + 1.
Proof.
  intros Hhead Hlast.
  rewrite (total_duration_suffix keyframes keyframes 0 first); try done.
  by rewrite Hlast.
Qed.

Lemma durations_add_up_witness : total_duration [1; 5; 12] 0 [1; 5; 12] = 12 - 1 + 1.
Proof. exact (durations_add_up [1; 5; 12] 1 12 eq_refl eq_refl). Defined.

(** ** The armature's own transform *)

Lemma angle_line_world `{Host} (arm arm' : Armature) bone_name :
  pose_bones arm' = pose_bones arm ->
  (forall pb, bones_lookup (pose_bones arm) bone_name = Some pb -> parent pb <> None) ->
  angle_line arm' bone_name = angle_line arm bone_name.
Proof.
  intros Hbones Hparented. unfold angle_line. rewrite Hbones.
  destruct (bones_lookup _ _) as [pb|] eqn:Hl; [|done].
  specialize (Hparented pb eq_refl).
  unfold pose_bone_relative_euler_degrees.
  by destruct (parent pb).
Qed.

(** X16. The armature object's world transform enters the document only
    through bones that have no parent: two rigs with the same pose bones
    and different world transforms, both exported, agree on the entry of
    every [BONE_ORDER] name that is absent from the rig or names a bone
    with a parent. *)
Theorem world_transform_only_moves_roots `{Host} (arm_obj arm_obj' : Z -> Armature)
    action out_path w w1 w2 p1 p2 :
  (forall f, pose_bones (arm_obj' f) = pose_bones (arm_obj f)) ->
  export_action_to_slashblade_text arm_obj action out_path w = (w1, inr p1) ->
  export_action_to_slashblade_text arm_obj' action out_path w = (w2, inr p2) ->
  exists ks angs angs',
    gather_action_keyframes action = inr ks
    /\ files w1 !! out_path
       = Some (String.concat "" (document_lines (name action) ks angs))
    /\ files w2 !! out_path
       = Some (String.concat "" (document_lines (name action) ks angs'))
    /\ forall i f n bone_name,
         ks !! i = Some f -> BONE_ORDER !! n = Some bone_name ->
         (forall pb, bones_lookup (pose_bones (arm_obj f)) bone_name = Some pb ->
                     parent pb <> None) ->
         document_lines (name action) ks angs' !! angle_index i n
         = document_lines (name action) ks angs !! angle_index i n.
Proof.
  intros Hbones Hrun1 Hrun2.
  destruct (export_angles _ _ _ _ _ _ Hrun1) as (ks & angs & Hg & _ & Hfile & Hent).
  destruct (export_angles _ _ _ _ _ _ Hrun2) as (ks' & angs' & Hg' & _ & Hfile' & Hent').
  assert (ks' = ks) as -> by congruence.
  exists ks, angs, angs'. repeat split; try done.
  intros i f n bone_name Hi Hn Hparented.
  destruct (Hent i f n bone_name Hi Hn) as (entry & Hline & ->).
  destruct (Hent' i f n bone_name Hi Hn) as (entry' & Hline' & ->).
  rewrite (angle_line_world _ _ _ (Hbones f) Hparented) in Hline'. congruence.
Qed.

Lemma world_transform_only_moves_roots_witness :
  let run1 := @export_action_to_slashblade_text recorded_host rig_a slash_combo
                slash_combo_path (world0 NoFault) in
  let run2 := @export_action_to_slashblade_text recorded_host rig_a_turned slash_combo
                slash_combo_path (world0 NoFault) in
  exists ks angs angs',
    gather_action_keyframes slash_combo = inr ks
    /\ files (fst run1) !! slash_combo_path
       = Some (String.concat "" (document_lines (name slash_combo) ks angs))
    /\ files (fst run2) !! slash_combo_path
       = Some (String.concat "" (document_lines (name slash_combo) ks angs'))
    /\ forall i f n bone_name,
         ks !! i = Some f -> BONE_ORDER !! n = Some bone_name ->
         (forall pb, bones_lookup (@pose_bones recorded_host (rig_a f)) bone_name = Some pb ->
                     parent pb <> None) ->
         document_lines (name slash_combo) ks angs' !! angle_index i n
         = document_lines (name slash_combo) ks angs !! angle_index i n.
Proof.
  intros run1 run2.
  assert (H1 : run1 = (fst run1, inr slash_combo_path)) by (vm_compute; reflexivity).
  assert (H2 : run2 = (fst run2, inr slash_combo_path)) by (vm_compute; reflexivity).
  exact (@world_transform_only_moves_roots recorded_host rig_a rig_a_turned slash_combo
           slash_combo_path (world0 NoFault) (fst run1) (fst run2) _ _
           (fun _ => eq_refl) H1 H2).
Defined.

(** ** The operator *)

Lemma execute_not_ready `{Host} `{Os} data context s :
  (forall obj action, ~ ready data context obj action) ->
  exists msg, execute data context s = (report s ERROR msg, CANCELLED).
Proof.
  intros Hnot. unfold execute.
  destruct (active_object context) as [obj|] eqn:Hobj; [|by eexists].
  destruct (String.eqb (obj_type obj) "ARMATURE") eqn:Htype; simpl; [|by eexists].
  apply String.eqb_eq in Htype.
  destruct (animation_data obj) as [ad|] eqn:Had; [|by eexists].
  destruct (anim_action ad) as [action|] eqn:Hact; [|by eexists].
  destruct (is_saved data) eqn:Hsaved; simpl; [|by eexists].
  exfalso. apply (Hnot obj action). unfold ready. eauto 10.
Qed.

Lemma execute_ready `{Host} `{Os} data context s obj action :
  ready data context obj action ->
  execute data context s
  = match export_action_to_slashblade_text (evaluated obj) action
            (out_path_of data (name action)) (scene s) with
    | (w', inl e) =>
        (report (mkSession w' (reports s) (printed s ++ [e])) ERROR
           ("Export failed: " +:+ exn_str e), CANCELLED)
    | (w', inr written) =>
        (report (mkSession w' (reports s) (printed s)) INFO
           ("Exported '" +:+ name action +:+ "' to: " +:+ written), FINISHED)
    end.
Proof.
  intros (Hobj & Htype & (ad & Had & Hact) & Hsaved). unfold execute.
  rewrite Hobj, Htype, Had, Hact, Hsaved. done.
Qed.

Lemma ready_dec `{Host} data context :
  (exists obj action, ready data context obj action)
  \/ (forall obj action, ~ ready data context obj action).
Proof.
  unfold ready.
  destruct (active_object context) as [obj|] eqn:Hobj;
    [|right; intros ? ? (? & _); congruence].
  destruct (String.eqb (obj_type obj) "ARMATURE") eqn:Htype.
  2: { right. intros obj' action (Ho & Ht & _).
       assert (obj' = obj) as -> by congruence.
       apply String.eqb_neq in Htype. done. }
  apply String.eqb_eq in Htype.
  destruct (animation_data obj) as [ad|] eqn:Had.
  2: { right. intros obj' action (Ho & _ & (ad & Had' & _) & _).
       assert (obj' = obj) as -> by congruence. congruence. }
  destruct (anim_action ad) as [action|] eqn:Hact.
  2: { right. intros obj' action (Ho & _ & (ad' & Had' & Hact') & _).
       assert (obj' = obj) as -> by congruence. congruence. }
  destruct (is_saved data) eqn:Hsaved;
    [|right; intros ? ? (_ & _ & _ & ?); congruence].
  left. exists obj, action. eauto 10.
Qed.

(** X13. When the operator returns [FINISHED], its guards passed and the
    export completed: the document of the active armature's action is on
    disk at the path built from the .blend file's directory and the
    normalised clip name, the scene's cursor is where it was, no
    traceback was printed, and the one report added is the [INFO]
    message naming the clip and that path. *)
Theorem execute_finished `{Host} `{Os} data context s s' :
  execute data context s = (s', FINISHED) ->
  exists obj action ks angs,
    ready data context obj action
    /\ gather_action_keyframes action = inr ks /\ ks <> []
    /\ res_mapM (angles_at (evaluated obj)) ks = inr angs
    /\ files (scene s') !! out_path_of data (name action)
       = Some (String.concat "" (document_lines (name action) ks angs))
    /\ frame_current (scene s') = frame_current (scene s)
    /\ printed s' = printed s
    /\ reports s'
       = reports s ++ [(INFO, "Exported '" +:+ name action +:+ "' to: "
                                +:+ out_path_of data (name action))].
Proof.
  intros Hexec. destruct (ready_dec data context) as [(obj & action & Hready)|Hnot].
  2: { destruct (execute_not_ready data context s Hnot) as [msg Hcancel].
       rewrite Hcancel in Hexec. discriminate. }
  rewrite (execute_ready _ _ _ _ _ Hready) in Hexec.
  destruct (export_action_to_slashblade_text _ _ _ _) as [w' [e|written]] eqn:Hrun;
    [discriminate|].
  destruct (export_success_inv _ _ _ _ _ _ Hrun)
    as (ks & angs & Hg & Hne & Hm & -> & ->).
  inversion Hexec; subst. clear Hexec.
  exists obj, action, ks, angs. unfold report. cbn [scene reports printed].
  rewrite exported_files, lookup_insert_eq, exported_frame.
  split; [exact Hready|]. repeat split; done.
Qed.

Lemma execute_finished_witness :
  let run := @execute recorded_host recorded_os saved_blend slash_combo_context
               (session0 NoFault) in
  exists obj action ks angs,
    @ready recorded_host saved_blend slash_combo_context obj action
    /\ gather_action_keyframes action = inr ks /\ ks <> []
    /\ res_mapM (angles_at (evaluated obj)) ks = inr angs
    /\ files (scene (fst run)) !! @out_path_of recorded_host recorded_os saved_blend (name action)
       = Some (String.concat "" (document_lines (name action) ks angs))
    /\ frame_current (scene (fst run)) = frame_current (scene (session0 NoFault))
    /\ printed (fst run) = printed (session0 NoFault)
    /\ reports (fst run)
       = reports (session0 NoFault)
           ++ [(INFO, "Exported '" +:+ name action +:+ "' to: "
                        +:+ @out_path_of recorded_host recorded_os saved_blend (name action))].
Proof.
  intros run.
  assert (Hrun : run = (fst run, FINISHED)) by (vm_compute; reflexivity).
  exact (@execute_finished recorded_host recorded_os saved_blend slash_combo_context
           (session0 NoFault) (fst run) Hrun).
Defined.

(** X14. Every invocation of the operator adds exactly one report, an
    [INFO] when it returns [FINISHED] and an [ERROR] when it returns
    [CANCELLED]; when one of its guards fails (no active armature, no
    action, file not saved) it touches neither the scene nor the file
    system and prints no traceback. *)
Theorem execute_reports_once `{Host} `{Os} data context s :
  exists level msg,
    reports (fst (execute data context s)) = reports s ++ [(level, msg)]
    /\ (snd (execute data context s) = FINISHED <-> level = INFO)
    /\ (snd (execute data context s) = CANCELLED <-> level = ERROR)
    /\ ((forall obj action, ~ ready data context obj action) ->
        snd (execute data context s) = CANCELLED
        /\ scene (fst (execute data context s)) = scene s
        /\ printed (fst (execute data context s)) = printed s).
Proof.
  destruct (ready_dec data context) as [(obj & action & Hready)|Hnot].
  - rewrite (execute_ready _ _ _ _ _ Hready).
    destruct (export_action_to_slashblade_text _ _ _ _) as [w' [e|written]]; simpl.
    + eexists ERROR, _. split; [done|]. split; [split; intros; discriminate|].
      split; [done|]. intros Hnot. exfalso. by eapply Hnot.
    + eexists INFO, _. split; [done|]. split; [done|].
      split; [split; intros; discriminate|]. intros Hnot. exfalso. by eapply Hnot.
  - destruct (execute_not_ready data context s Hnot) as [msg ->]. simpl.
    exists ERROR, msg. split; [done|]. split; [split; intros; discriminate|].
    split; [done|]. intros _. done.
Qed.

(** X17. When the export raises, the operator does not let the exception
    out: it returns [CANCELLED], prints the one traceback, reports
    "Export failed: " followed by the text of the exception, and leaves
    the scene as the failed export left it; for a clip without keyframes
    the report reads "Export failed: No keyframes found in action!". *)
Theorem execute_export_failed `{Host} `{Os} data context s obj action w' e :
  ready data context obj action ->
  export_action_to_slashblade_text (evaluated obj) action
    (out_path_of data (name action)) (scene s) = (w', inl e) ->
  execute data context s
  = (mkSession w' (reports s ++ [(ERROR, "Export failed: " +:+ exn_str e)])
       (printed s ++ [e]),
     CANCELLED)
  /\ (gather_action_keyframes action = inr [] ->
      w' = scene s
      /\ "Export failed: " +:+ exn_str e = "Export failed: No keyframes found in action!").
Proof.
  intros Hready Hrun. rewrite (execute_ready _ _ _ _ _ Hready), Hrun.
  split; [done|]. intros Hg.
  rewrite (export_no_keyframes _ _ _ _ Hg) in Hrun. by inversion Hrun.
Qed.

Lemma execute_export_failed_witness :
  @execute recorded_host recorded_os saved_blend
    (mkContext (Some (armature_object torso_only (Some (mkAction "Idle" [])))) None)
    (session0 NoFault)
  = (mkSession (world0 NoFault)
       [(ERROR, "Export failed: No keyframes found in action!")]
       [RuntimeError "No keyframes found in action!"],
     CANCELLED).
Proof.
  assert (Hready : @ready recorded_host saved_blend
            (mkContext (Some (armature_object torso_only (Some (mkAction "Idle" [])))) None)
            (armature_object torso_only (Some (mkAction "Idle" [])))
            (mkAction "Idle" [])).
  { unfold ready. repeat split. by eexists. }
  exact (proj1 (@execute_export_failed recorded_host recorded_os saved_blend _
                  (session0 NoFault) _ _ (world0 NoFault)
                  (RuntimeError "No keyframes found in action!") Hready eq_refl)).
Defined.

(** X18. The panel's poll and the operator's first guard agree: when
    [context.object] is the active object, the panel is shown exactly
    when the operator would not stop with "Select an Armature object.". *)
Theorem poll_matches_guard `{Host} `{Os} data (context : Context) s :
  context_object context = active_object context ->
  poll context = false
  <-> execute data context s
      = (report s ERROR "Select an Armature object.", CANCELLED).
Proof.
  intros Hsame. unfold poll. rewrite Hsame. unfold execute.
  destruct (active_object context) as [obj|]; [|done].
  destruct (String.eqb (obj_type obj) "ARMATURE"); simpl; [|done].
  split; [done|]. intros Hexec. exfalso.
  assert (Hmsg : forall (s1 : Session) level msg r,
            (report s1 level msg, r)
            = (report s ERROR "Select an Armature object.", CANCELLED) ->
            reports s1 = reports s ->
            msg = "Select an Armature object.").
  { intros s1 level msg r Heq Hrep. inversion Heq as [[Hscene Hreports Hprinted Hr]].
    rewrite Hrep in Hreports. apply app_inv_head in Hreports. congruence. }
  destruct (animation_data obj) as [ad|].
  2: { apply Hmsg in Hexec; [discriminate|done]. }
  destruct (anim_action ad) as [action|].
  2: { apply Hmsg in Hexec; [discriminate|done]. }
  destruct (is_saved data); simpl in Hexec.
  2: { apply Hmsg in Hexec; [discriminate|done]. }
  destruct (export_action_to_slashblade_text _ _ _ _) as [w' [e|written]].
  - apply Hmsg in Hexec; [|done]. rewrite append_cons in Hexec. discriminate.
  - discriminate.
Qed.

Lemma poll_matches_guard_witness :
  @poll recorded_host (mkContext None None) = false
  <-> @execute recorded_host recorded_os saved_blend (mkContext None None) (session0 NoFault)
      = (report (session0 NoFault) ERROR "Select an Armature object.", CANCELLED).
Proof.
  exact (@poll_matches_guard recorded_host recorded_os saved_blend (mkContext None None)
           (session0 NoFault) eq_refl).
Defined.
